(** * gomemcache: the text and binary protocol drivers

    A shallow embedding of the two wire-protocol drivers of
    [github.com/skinass/gomemcache] ([memcache/proto/text] and
    [memcache/proto/bin]) together with the error sentinels of
    [memcache/types], followed by the properties of the drivers.

    Conventions of the embedding.
    - A Go [string] and a Go [[]byte] are both a list of 8-bit characters
      ([bytes]).
    - Fixed-width integers are [Z]; every conversion that can wrap is written
      out ([u8], [u16], [u32], [u64], [int64]).  [int] is 64 bits wide.
    - A Go [error] is an [option error]: [None] is [nil].
    - A [*bufio.ReadWriter] is a state ([bufio.ReadWriter]) threaded through
      the monad [M]; a call returns, panics, or is cut short when a loop
      exhausts its budget of iterations (which is proved not to happen).
    - What the Go library does and the repository does not define is either
      modelled in [bufio] and [bin] ([bufio], [encoding/binary],
      [bytes.Buffer]) or left as a parameter ([fmt.Sscanf]).
    - [fmt.Fprintf (rw, format, args...)] is one [Write] of the formatted
      request, built at the call site. *)

From Stdlib Require Import Ascii String DecimalString.
From Stdlib Require Import ZArith List Bool Lia.
Import ListNotations.
Local Open Scope Z_scope.

(** ** Byte strings *)

Definition bytes := list ascii.

(** The bytes of a literal. *)
Definition B (s : string) : bytes := list_ascii_of_string s.

Definition code (b : ascii) : Z := Z.of_N (N_of_ascii b).
Definition byte_of (z : Z) : ascii := ascii_of_N (Z.to_N (Z.land z 255)).

Definition SP : ascii := " "%char.
Definition CR : ascii := "013"%char.
Definition LF : ascii := "010"%char.

(** Modelled from the spec: the line terminator CRLF, the [crlf] of the text
    driver, which is declared outside the sources at hand. *)
Definition crlf : bytes := [CR; LF].

(** [bytes.Equal], also [==] on strings. *)
Fixpoint Equal (a b : bytes) : bool :=
  match a, b with
  | [], [] => true
  | x :: a', y :: b' => Ascii.eqb x y && Equal a' b'
  | _, _ => false
  end.

(** [bytes.HasSuffix]: [len(s) >= len(suffix)] and the tail of [s] of that
    length equals [suffix]. *)
Definition HasSuffix (s suffix : bytes) : bool :=
  (length suffix <=? length s)%nat &&
  Equal (skipn (length s - length suffix) s) suffix.

(** [bytes.Count] for a one-byte separator. *)
Definition Count (s : bytes) (sep : ascii) : Z :=
  Z.of_nat (length (filter (Ascii.eqb sep) s)).

(** [bytes.IndexByte]. *)
Fixpoint IndexByte (s : bytes) (c : ascii) : option nat :=
  match s with
  | [] => None
  | x :: s' => if Ascii.eqb x c then Some O
               else option_map S (IndexByte s' c)
  end.

(** [strings.Join]. *)
Fixpoint Join (elems : list bytes) (sep : bytes) : bytes :=
  match elems with
  | [] => []
  | [e] => e
  | e :: rest => e ++ sep ++ Join rest sep
  end.

(** The verb [%d] of [fmt]: signed decimal, no padding. *)
Definition fmt_d (z : Z) : bytes := B (NilZero.string_of_int (Z.to_int z)).

(** ** Fixed-width integers *)

Definition u8 (z : Z) : Z := z mod 2 ^ 8.
Definition u16 (z : Z) : Z := z mod 2 ^ 16.
Definition u32 (z : Z) : Z := z mod 2 ^ 32.
Definition u64 (z : Z) : Z := z mod 2 ^ 64.
Definition int64 (z : Z) : Z := (z + 2 ^ 63) mod 2 ^ 64 - 2 ^ 63.

(** [len] of a byte string, as a Go [int]. *)
Definition len (s : bytes) : Z := Z.of_nat (length s).

(** ** Package [types] *)

Module types.

(** [type Verb string]. *)
Definition Verb := bytes.

Definition Set_ : Verb := B "set".
Definition Add : Verb := B "add".
Definition Replace : Verb := B "replace".
Definition Cas : Verb := B "cas".
Definition Incr : Verb := B "incr".
Definition Decr : Verb := B "decr".

(** The error values the drivers can return.  The first sixteen are the
    sentinels of [types]; [EOF], [ErrUnexpectedEOF] are those of [io],
    [ErrBufferFull] that of [bufio], [ErrTransport] is a failure of the
    underlying connection; [Errorf format args] is a value built by
    [fmt.Errorf] or [errors.New], kept unformatted. *)
Inductive error : Type :=
| ErrCacheMiss
| ErrCASConflict
| ErrNotStored
| ErrServerError
| ErrNoStats
| ErrMalformedKey
| ErrNoServers
| ErrValueTooLarge
| ErrInvalidArgs
| ErrValueNotStored
| ErrNonNumeric
| ErrAuthRequired
| ErrAuthContinue
| ErrUnknownCommand
| ErrOutOfMemory
| ErrUnknownError
| EOF
| ErrUnexpectedEOF
| ErrBufferFull
| ErrTransport
| Errorf (format : string) (args : list bytes).

(** The spec's "protocol error": an error built on the spot from the
    offending line, as opposed to a sentinel or a transport error. *)
Definition is_protocol_error (e : option error) : bool :=
  match e with
  | Some (Errorf _ _) => true
  | _ => false
  end.

(** Modelled from the spec: the [Item] record, whose declaration
    ([memcache/types]) is not among the sources; fields as the drivers use
    them: [Flags] is a [uint32], [Expiration] an [int32], [Casid] a
    [uint64]. *)
Record Item : Type := mkItem {
  Key : bytes;
  Value : bytes;
  Flags : Z;
  Expiration : Z;
  Casid : Z
}.

(** [new(types.Item)]. *)
Definition newItem : Item := mkItem [] [] 0 0 0.

Definition with_Value (it : Item) (v : bytes) : Item :=
  mkItem (Key it) v (Flags it) (Expiration it) (Casid it).

End types.

(** ** Buffered connection: [*bufio.ReadWriter] *)

Module bufio.
Import types.

(** [rd]: the bytes the peer still delivers before it closes the stream;
    [rsize]: the capacity of the reader's buffer; [wbuf]: bytes written and
    not yet flushed; [sent]: bytes flushed to the peer; [werr]: the writer
    holds a sticky error, left by a failed flush; [wdown]: the connection
    refuses writes.  The writer's buffer is not bounded: a [Write] never
    flushes on its own. *)
Record ReadWriter : Type := mkRW {
  rd : bytes;
  rsize : nat;
  wbuf : bytes;
  sent : bytes;
  werr : bool;
  wdown : bool
}.

Definition set_rd (rw : ReadWriter) (r : bytes) : ReadWriter :=
  mkRW r (rsize rw) (wbuf rw) (sent rw) (werr rw) (wdown rw).

(** Outcome of a call: it returns, the goroutine panics, or a loop is still
    running when its budget of iterations is used up. *)
Inductive res (A : Type) : Type :=
| Ret (a : A)
| Panic (msg : string)
| Diverge.
Arguments Ret {A} a.
Arguments Panic {A} msg.
Arguments Diverge {A}.

Definition M (A : Type) : Type := ReadWriter -> res A * ReadWriter.

Definition ret {A} (a : A) : M A := fun rw => (Ret a, rw).

Definition panic {A} (msg : string) : M A := fun rw => (Panic msg, rw).

Definition diverge {A} : M A := fun rw => (Diverge, rw).

Definition bind {A C} (c : M A) (k : A -> M C) : M C :=
  fun rw =>
    match c rw with
    | (Ret a, rw') => k a rw'
    | (Panic msg, rw') => (Panic msg, rw')
    | (Diverge, rw') => (Diverge, rw')
    end.

(** [Write] of [bufio.Writer]. *)
Definition Write (p : bytes) : M (option error) :=
  fun rw =>
    if werr rw then (Ret (Some ErrTransport), rw)
    else (Ret None,
          mkRW (rd rw) (rsize rw) (wbuf rw ++ p) (sent rw) false (wdown rw)).

(** [Flush] of [bufio.Writer]. *)
Definition Flush : M (option error) :=
  fun rw =>
    if werr rw then (Ret (Some ErrTransport), rw)
    else
      match wbuf rw with
      | [] => (Ret None, rw)
      | _ :: _ =>
          if wdown rw
          then (Ret (Some ErrTransport),
                mkRW (rd rw) (rsize rw) (wbuf rw) (sent rw) true true)
          else (Ret None,
                mkRW (rd rw) (rsize rw) [] (sent rw ++ wbuf rw) false false)
      end.

(** [ReadSlice] of [bufio.Reader]: the bytes up to and including the first
    [delim]; [ErrBufferFull] when the buffer fills before a [delim] shows
    up; [EOF] when the stream ends first. *)
Definition ReadSlice (delim : ascii) : M (bytes * option error) :=
  fun rw =>
    match IndexByte (firstn (rsize rw) (rd rw)) delim with
    | Some i =>
        (Ret (firstn (S i) (rd rw), None), set_rd rw (skipn (S i) (rd rw)))
    | None =>
        if (rsize rw <=? length (rd rw))%nat
        then (Ret (firstn (rsize rw) (rd rw), Some ErrBufferFull),
              set_rd rw (skipn (rsize rw) (rd rw)))
        else (Ret (rd rw, Some EOF), set_rd rw [])
    end.

(** [io.ReadFull (r, buf)] with [len(buf) = n]. *)
Definition ReadFull (n : nat) : M (bytes * option error) :=
  fun rw =>
    match n with
    | O => (Ret ([], None), rw)
    | S _ =>
        match rd rw with
        | [] => (Ret ([], Some EOF), rw)
        | _ :: _ =>
            if (n <=? length (rd rw))%nat
            then (Ret (firstn n (rd rw), None), set_rd rw (skipn n (rd rw)))
            else (Ret (rd rw, Some ErrUnexpectedEOF), set_rd rw [])
        end
    end.

End bufio.

Declare Scope go_scope.
Delimit Scope go_scope with go.

Notation "x <- c ;; k" := (bufio.bind c (fun x => k))
  (at level 61, c at next level, right associativity) : go_scope.
Notation "' pat <- c ;; k" := (bufio.bind c (fun x => match x with pat => k end))
  (at level 61, pat pattern, c at next level, right associativity) : go_scope.
(** [if err := c; err != nil { return err }]. *)
Notation "'check' c ;; k" :=
  (bufio.bind c (fun err => match err with
                            | Some e => bufio.ret (Some e)
                            | None => k
                            end))
  (at level 61, c at next level, right associativity) : go_scope.

(** ** More of the Go library *)

(** [bytes.HasPrefix], [strings.HasPrefix]. *)
Fixpoint HasPrefix (s prefix : bytes) : bool :=
  match prefix, s with
  | [], _ => true
  | p :: prefix', x :: s' => Ascii.eqb x p && HasPrefix s' prefix'
  | _ :: _, [] => false
  end.

(** [strings.Index]: the index of the first instance of [substr] in [s],
    or -1. *)
Fixpoint Index (s substr : bytes) : Z :=
  if HasPrefix s substr then 0
  else match s with
       | [] => -1
       | _ :: s' => let i := Index s' substr in
                    if i <? 0 then -1 else i + 1
       end.

(** The slice expression [s[lo:hi]] on a byte string. *)
Definition slice (s : bytes) (lo hi : Z) : bufio.res bytes :=
  if (0 <=? lo) && (lo <=? hi) && (hi <=? len s)
  then bufio.Ret (firstn (Z.to_nat (hi - lo)) (skipn (Z.to_nat lo) s))
  else bufio.Panic "slice bounds out of range".

(** The loop of [strconv.ParseUint (s, 10, 64)] over the bytes of [s], with
    [n] the number read so far: a byte that is no decimal digit is a syntax
    error, a number above [1<<64 - 1] a range error. *)
Fixpoint ParseUint_loop (s0 s : bytes) (n : Z) : Z * option types.error :=
  match s with
  | [] => (n, None)
  | c :: s' =>
      if (48 <=? code c) && (code c <=? 57)
      then
        if n >=? (2 ^ 64 - 1) / 10 + 1
        then (2 ^ 64 - 1,
              Some (types.Errorf
                      "strconv.ParseUint: parsing %q: value out of range"
                      [s0]))
        else
          let n1 := n * 10 + (code c - 48) in
          if n1 >? 2 ^ 64 - 1
          then (2 ^ 64 - 1,
                Some (types.Errorf
                        "strconv.ParseUint: parsing %q: value out of range"
                        [s0]))
          else ParseUint_loop s0 s' n1
      else (0, Some (types.Errorf
                       "strconv.ParseUint: parsing %q: invalid syntax" [s0]))
  end.

(** [strconv.ParseUint (s, 10, 64)]. *)
Definition ParseUint (s : bytes) : Z * option types.error :=
  match s with
  | [] => (0, Some (types.Errorf
                      "strconv.ParseUint: parsing %q: invalid syntax" [s]))
  | _ :: _ => ParseUint_loop s s 0
  end.

(** [maxAlloc] of the Go runtime on a 64-bit platform with 48 bits of heap
    address: [make] panics when asked for more bytes than this, as it does
    for a negative length.  A slice within the limit is taken to be
    allocated: the memory of the process is not modelled. *)
Definition maxAlloc : Z := 2 ^ 48.

(** ** Package [text]: the line-oriented driver *)

Module text.
Import types bufio.
Local Open Scope go_scope.

(** Modelled from the spec: the response lines of the memcached ASCII
    protocol, CRLF-terminated; the driver's table of them ([resultOK],
    [resultStored], ...) is declared outside the sources at hand. *)
Definition resultOK : bytes := B "OK" ++ crlf.
Definition resultStored : bytes := B "STORED" ++ crlf.
Definition resultNotStored : bytes := B "NOT_STORED" ++ crlf.
Definition resultExists : bytes := B "EXISTS" ++ crlf.
Definition resultNotFound : bytes := B "NOT_FOUND" ++ crlf.
Definition resultDeleted : bytes := B "DELETED" ++ crlf.
Definition resultEnd : bytes := B "END" ++ crlf.
Definition resultTouched : bytes := B "TOUCHED" ++ crlf.

(** [fmt.Fprintf (rw, ...)], given the formatted text. *)
Definition Fprintf (formatted : bytes) : M (option error) := Write formatted.

(** The scan [for i := 0; i < len(key); i++] of [LegalKey]. *)
Fixpoint LegalKey_loop (key : bytes) : bool :=
  match key with
  | [] => true
  | c :: key' =>
      if (code c <=? code SP) || (code c =? 127) then false
      else LegalKey_loop key'
  end.

Definition LegalKey (key : bytes) : bool :=
  if len key >? 250 then false else LegalKey_loop key.

Definition Populate (verb : Verb) (item : Item) : M (option error) :=
  if negb (LegalKey (Key item)) then ret (Some ErrMalformedKey) else
  check (if Equal verb Cas
         then Fprintf (verb ++ [SP] ++ Key item ++ [SP] ++ fmt_d (Flags item)
                       ++ [SP] ++ fmt_d (Expiration item)
                       ++ [SP] ++ fmt_d (len (Value item))
                       ++ [SP] ++ fmt_d (Casid item) ++ crlf)
         else Fprintf (verb ++ [SP] ++ Key item ++ [SP] ++ fmt_d (Flags item)
                       ++ [SP] ++ fmt_d (Expiration item)
                       ++ [SP] ++ fmt_d (len (Value item)) ++ crlf)) ;;
  check Write (Value item) ;;
  check Write crlf ;;
  check Flush ;;
  '(line, err) <- ReadSlice LF ;;
  match err with
  | Some e => ret (Some e)
  | None =>
      if Equal line resultStored then ret None
      else if Equal line resultNotStored then ret (Some ErrNotStored)
      else if Equal line resultExists then ret (Some ErrCASConflict)
      else if Equal line resultNotFound then ret (Some ErrCacheMiss)
      else ret (Some (Errorf "memcache: unexpected response line from %q: %q"
                             [verb; line]))
  end.

Definition writeReadLine (formatted : bytes) : M (bytes * option error) :=
  err <- Fprintf formatted ;;
  match err with
  | Some e => ret ([], Some e)
  | None =>
      err <- Flush ;;
      match err with
      | Some e => ret ([], Some e)
      | None => ReadSlice LF
      end
  end.

Definition writeExpectf (expect : bytes) (formatted : bytes)
  : M (option error) :=
  '(line, err) <- writeReadLine formatted ;;
  match err with
  | Some e => ret (Some e)
  | None =>
      if Equal line resultOK then ret None
      else if Equal line expect then ret None
      else if Equal line resultNotStored then ret (Some ErrNotStored)
      else if Equal line resultExists then ret (Some ErrCASConflict)
      else if Equal line resultNotFound then ret (Some ErrCacheMiss)
      else ret (Some (Errorf "memcache: unexpected response line: %q" [line]))
  end.

Definition Delete (key : bytes) : M (option error) :=
  writeExpectf resultDeleted (B "delete " ++ key ++ crlf).

Definition DeleteAll : M (option error) :=
  writeExpectf resultDeleted (B "flush_all" ++ crlf).

Definition FlushAll : M (option error) :=
  writeExpectf resultOK (B "flush_all" ++ crlf).

Fixpoint Touch (keys : list bytes) (expiration : Z) : M (option error) :=
  match keys with
  | [] => ret None
  | key :: keys' =>
      check Fprintf (B "touch " ++ key ++ [SP] ++ fmt_d expiration ++ crlf) ;;
      check Flush ;;
      '(line, err) <- ReadSlice LF ;;
      match err with
      | Some e => ret (Some e)
      | None =>
          if Equal line resultTouched then Touch keys' expiration
          else if Equal line resultNotFound then ret (Some ErrCacheMiss)
          else ret (Some (Errorf
                 "memcache: unexpected response line from touch: %q" [line]))
      end
  end.

(** *** Retrieval *)

(** An operand stored by [fmt.Sscanf]: a string for [%s], a number for
    [%d]. *)
Inductive scanned : Type :=
| SStr (s : bytes)
| SInt (z : Z).

(** The destinations [&it.Key], [&it.Flags], [&size], [&it.Casid]. *)
Inductive dest : Type := DKey | DFlags | DSize | DCasid.

Definition store (d : dest) (v : scanned) (st : Item * Z) : Item * Z :=
  let (it, size) := st in
  match d, v with
  | DKey, SStr s =>
      (mkItem s (Value it) (Flags it) (Expiration it) (Casid it), size)
  | DFlags, SInt z =>
      (mkItem (Key it) (Value it) (u32 z) (Expiration it) (Casid it), size)
  | DSize, SInt z => (it, int64 z)
  | DCasid, SInt z =>
      (mkItem (Key it) (Value it) (Flags it) (Expiration it) (u64 z), size)
  | _, _ => st
  end.

Fixpoint store_all (ds : list dest) (vs : list scanned) (st : Item * Z)
  : Item * Z :=
  match ds, vs with
  | d :: ds', v :: vs' => store_all ds' vs' (store d v st)
  | _, _ => st
  end.

Section Retrieval.

(** [fmt.Sscanf str format dest...] is a function of the Go library, not of
    this repository: [Sscanf str format n] gives the operands it stores into
    the first destinations, in order, and its error; its count of stored
    operands is the length of that list. *)
Variable Sscanf : bytes -> bytes -> nat -> list scanned * option error.

Definition scanGetResponseLine (line : bytes) (it : Item)
  : Item * Z * option error :=
  let pattern := B "VALUE %s %d %d %d" ++ crlf in
  let dest := [DKey; DFlags; DSize; DCasid] in
  let '(pattern, dest) :=
    if Count line SP =? 3
    then (B "VALUE %s %d %d" ++ crlf, firstn 3 dest)
    else (pattern, dest) in
  let '(vals, err) := Sscanf line pattern (length dest) in
  let '(it', size) := store_all dest vals (it, 0) in
  match err with
  | Some _ =>
      (it', -1, Some (Errorf "memcache: unexpected line in get response: %q"
                             [line]))
  | None =>
      if negb (length vals =? length dest)%nat
      then (it', -1, Some (Errorf
                      "memcache: unexpected line in get response: %q" [line]))
      else (it', size, None)
  end.

(** The loop of [parseGetResponse], with a budget of iterations; [got] is the
    sequence of items handed to the callback [cb] so far. *)
Fixpoint parseGetResponse_loop (fuel : nat) (got : list Item)
  : M (list Item * option error) :=
  match fuel with
  | O => diverge
  | S fuel' =>
      '(line, err) <- ReadSlice LF ;;
      match err with
      | Some e => ret (got, Some e)
      | None =>
          if Equal line resultEnd then ret (got, None) else
          let '(it, size, err) := scanGetResponseLine line newItem in
          match err with
          | Some e => ret (got, Some e)
          | None =>
              let n := int64 (size + 2) in
              if (n <? 0) || (n >? maxAlloc)
              then panic "makeslice: len out of range" else
              '(value, err) <- ReadFull (Z.to_nat n) ;;
              match err with
              | Some e => ret (got, Some e)
              | None =>
                  if negb (HasSuffix value crlf)
                  then ret (got, Some (Errorf
                              "memcache: corrupt get result read" []))
                  else parseGetResponse_loop fuel'
                         (got ++ [with_Value it (firstn (Z.to_nat size) value)])
              end
          end
      end
  end.

(** Every iteration that goes on consumes at least one byte, so one more
    iteration than there are bytes is budget enough (see
    [parseGetResponse_returns]). *)
Definition parseGetResponse (got : list Item) : M (list Item * option error) :=
  fun rw => parseGetResponse_loop (S (length (rd rw))) got rw.

Definition Get (keys : list bytes) (got : list Item)
  : M (list Item * option error) :=
  err <- Fprintf (B "gets " ++ Join keys [SP] ++ crlf) ;;
  match err with
  | Some e => ret (got, Some e)
  | None =>
      err <- Flush ;;
      match err with
      | Some e => ret (got, Some e)
      | None => parseGetResponse got
      end
  end.

End Retrieval.

(** *** Ping and counters *)

Section Lines.

(** The prefixes [versionPrefix] and [resultClientErrorPrefix] of the
    driver's table of response lines, which is declared outside the sources
    at hand. *)
Variable versionPrefix : bytes.
Variable resultClientErrorPrefix : bytes.

Definition Ping : M (option error) :=
  check Fprintf (B "version" ++ crlf) ;;
  check Flush ;;
  '(line, err) <- ReadSlice LF ;;
  match err with
  | Some e => ret (Some e)
  | None =>
      if HasPrefix line versionPrefix then ret None
      else ret (Some (Errorf
             "memcache: unexpected response line from ping: %q" [line]))
  end.

Definition lift {A} (r : res A) : M A := fun rw => (r, rw).

Definition IncrDecr (verb : Verb) (key : bytes) (delta : Z)
  : M (Z * option error) :=
  '(line, err) <- writeReadLine
                    (verb ++ [SP] ++ key ++ [SP] ++ fmt_d delta ++ crlf) ;;
  match err with
  | Some e => ret (0, Some e)
  | None =>
      if Equal line resultNotFound then ret (0, Some ErrCacheMiss)
      else if HasPrefix line resultClientErrorPrefix then
        errMsg <- lift (slice line (len resultClientErrorPrefix)
                              (len line - 2)) ;;
        ret (0, Some (Errorf "memcache: client error: %s" [errMsg]))
      else
        digits <- lift (slice line 0 (len line - 2)) ;;
        let '(val, err) := ParseUint digits in
        match err with
        | Some e => ret (0, Some e)
        | None => ret (val, None)
        end
  end.

End Lines.

Definition IsAuthSupported : bool := false.

Definition Auth (username password : bytes) : M (option error) :=
  ret (Some (Errorf "method Auth is not implemented for plain cmd runner" [])).

End text.

(** ** Package [bin]: the length-prefixed driver *)

Module bin.
Import types bufio.
Local Open Scope go_scope.

Definition StatusOK : Z := 0.
Definition StatusNotFound : Z := 1.
Definition StatusKeyExists : Z := 2.
Definition StatusValueTooLarge : Z := 3.
Definition StatusInvalidArgs : Z := 4.
Definition StatusValueNotStored : Z := 5.
Definition StatusNonNumeric : Z := 6.
Definition StatusAuthRequired : Z := 0x20.
Definition StatusAuthContinue : Z := 0x21.
Definition StatusUnknownCommand : Z := 0x81.
Definition StatusOutOfMemory : Z := 0x82.

(** [newError] turns a status of the server into the matching error. *)
Definition newError (status : Z) : option error :=
  if status =? StatusOK then None
  else if status =? StatusNotFound then Some ErrCacheMiss
  else if status =? StatusKeyExists then Some ErrCASConflict
  else if status =? StatusValueTooLarge then Some ErrValueTooLarge
  else if status =? StatusInvalidArgs then Some ErrInvalidArgs
  else if status =? StatusValueNotStored then Some ErrValueNotStored
  else if status =? StatusNonNumeric then Some ErrNonNumeric
  else if status =? StatusAuthRequired then Some ErrAuthRequired
  else if status =? StatusAuthContinue then Some ErrAuthContinue
  else if status =? StatusUnknownCommand then Some ErrUnknownCommand
  else if status =? StatusOutOfMemory then Some ErrOutOfMemory
  else Some ErrUnknownError.

(** [type opCode uint8]: the opcodes the driver sends, numbered by [iota]
    from [opGet]. *)
Definition opGet : Z := 0.
Definition opSet : Z := 1.
Definition opAdd : Z := 2.
Definition opReplace : Z := 3.
Definition opDelete : Z := 4.
Definition opIncrement : Z := 5.
Definition opDecrement : Z := 6.
Definition opFlush : Z := 8.
Definition opVersion : Z := 11.
Definition opTouch : Z := 28.

Definition magicSend : Z := 0x80.
Definition magicRecv : Z := 0x81.

Record header : Type := mkHeader {
  Magic : Z;
  Op : Z;
  KeyLen : Z;
  ExtraLen : Z;
  DataType : Z;
  ResvOrStatus : Z;
  BodyLen : Z;
  Opaque : Z;
  CAS : Z
}.

(** An element of [iextras] or the target of an element of [oextras]: a
    value of one of the four unsigned types, or of any other type. *)
Inductive extra : Type :=
| U8 (z : Z)
| U16 (z : Z)
| U32 (z : Z)
| U64 (z : Z)
| XOther.

Record msg : Type := mkMsg {
  hdr : header;
  iextras : list extra;
  oextras : list extra;
  key : bytes;
  val : bytes
}.

Definition with_hdr (m : msg) (h : header) : msg :=
  mkMsg h (iextras m) (oextras m) (key m) (val m).

(** *** [encoding/binary], big endian *)

Fixpoint be (n : nat) (z : Z) : bytes :=
  match n with
  | O => []
  | S k => byte_of (Z.shiftr z (8 * Z.of_nat k)) :: be k z
  end.

Definition de (bs : bytes) : Z :=
  fold_left (fun acc b => Z.lor (Z.shiftl acc 8) (code b)) bs 0.

Definition sub (bs : bytes) (off n : nat) : bytes := firstn n (skipn off bs).

Definition encode_header (h : header) : bytes :=
  be 1 (Magic h) ++ be 1 (Op h) ++ be 2 (KeyLen h) ++ be 1 (ExtraLen h)
  ++ be 1 (DataType h) ++ be 2 (ResvOrStatus h) ++ be 4 (BodyLen h)
  ++ be 4 (Opaque h) ++ be 8 (CAS h).

Definition decode_header (bs : bytes) : header :=
  mkHeader (de (sub bs 0 1)) (de (sub bs 1 1)) (de (sub bs 2 2))
           (de (sub bs 4 1)) (de (sub bs 5 1)) (de (sub bs 6 2))
           (de (sub bs 8 4)) (de (sub bs 12 4)) (de (sub bs 16 8)).

Definition width (e : extra) : nat :=
  match e with
  | U8 _ => 1
  | U16 _ => 2
  | U32 _ => 4
  | U64 _ => 8
  | XOther => 0
  end%nat.

(** [binary.Write (b, binary.BigEndian, e)] into a [bytes.Buffer]. *)
Definition binary_Write (b : bytes) (e : extra) : bytes * option error :=
  match e with
  | U8 z => (b ++ be 1 z, None)
  | U16 z => (b ++ be 2 z, None)
  | U32 z => (b ++ be 4 z, None)
  | U64 z => (b ++ be 8 z, None)
  | XOther => (b, Some (Errorf "binary.Write: invalid type" []))
  end.

Definition put (e : extra) (z : Z) : extra :=
  match e with
  | U8 _ => U8 z
  | U16 _ => U16 z
  | U32 _ => U32 z
  | U64 _ => U64 z
  | XOther => XOther
  end.

(** [binary.Read (buf, binary.BigEndian, e)] from a [bytes.Buffer]: the
    buffer left, the target updated, the error. *)
Definition binary_Read (buf : bytes) (e : extra)
  : bytes * extra * option error :=
  match e with
  | XOther => (buf, e, Some (Errorf "binary.Read: invalid type" []))
  | _ =>
      match buf with
      | [] => (buf, e, Some EOF)
      | _ :: _ =>
          if (width e <=? length buf)%nat
          then (skipn (width e) buf, put e (de (firstn (width e) buf)), None)
          else ([], e, Some ErrUnexpectedEOF)
      end
  end.

(** [Next] of [bytes.Buffer]: the next [n] bytes, or what is left when
    fewer are; slicing panics on a negative [n]. *)
Definition Next (buf : bytes) (n : Z) : res (bytes * bytes) :=
  let n := if n >? len buf then len buf else n in
  if n <? 0 then Panic "slice bounds out of range"
  else Ret (firstn (Z.to_nat n) buf, skipn (Z.to_nat n) buf).

Definition lift {A} (r : res A) : M A := fun rw => (r, rw).

(** *** The driver *)

(** [sizeOfExtras] returns the size of the extras field of the request, in
    a [uint8]. *)
Fixpoint sizeOfExtras_loop (extras : list extra) (l : Z) : res Z :=
  match extras with
  | [] => Ret l
  | e :: extras' =>
      match e with
      | U8 _ => sizeOfExtras_loop extras' (u8 (l + 8 / 8))
      | U16 _ => sizeOfExtras_loop extras' (u8 (l + 16 / 8))
      | U32 _ => sizeOfExtras_loop extras' (u8 (l + 32 / 8))
      | U64 _ => sizeOfExtras_loop extras' (u8 (l + 64 / 8))
      | XOther => Panic "mc: unknown extra type (%T)"
      end
  end.

Definition sizeOfExtras (extras : list extra) : res Z :=
  sizeOfExtras_loop extras 0.

Definition verbToOp (verb : Verb) : Z :=
  if Equal verb (B "incr") then opIncrement
  else if Equal verb (B "decr") then opDecrement
  else if Equal verb (B "cas") then opSet
  else if Equal verb (B "set") then opSet
  else if Equal verb (B "add") then opAdd
  else if Equal verb (B "replace") then opReplace
  else opVersion.

(** The loop of [send] over [m.iextras]. *)
Fixpoint write_extras (b : bytes) (extras : list extra)
  : bytes * option error :=
  match extras with
  | [] => (b, None)
  | e :: extras' =>
      match binary_Write b e with
      | (b', None) => write_extras b' extras'
      | (b', Some err) => (b', Some err)
      end
  end.

Definition send (m : msg) : M (msg * option error) :=
  extraLen <- lift (sizeOfExtras (iextras m)) ;;
  let keyLen := u16 (len (key m)) in
  let bodyLen := u32 (u32 extraLen + u32 keyLen + u32 (len (val m))) in
  let h := mkHeader magicSend (Op (hdr m)) keyLen extraLen
                    (DataType (hdr m)) (ResvOrStatus (hdr m)) bodyLen
                    (Opaque (hdr m)) (CAS (hdr m)) in
  let m := with_hdr m h in
  let b := encode_header h in
  match write_extras b (iextras m) with
  | (_, Some err) => ret (m, Some err)
  | (b, None) =>
      let b := b ++ key m in
      let b := b ++ val m in
      err <- Write b ;;
      match err with
      | Some e => ret (m, Some e)
      | None => err <- Flush ;; ret (m, err)
      end
  end.

(** The loop of [recv] over [m.oextras]. *)
Fixpoint read_extras (buf : bytes) (extras : list extra)
  : bytes * list extra * option error :=
  match extras with
  | [] => (buf, [], None)
  | e :: extras' =>
      match binary_Read buf e with
      | (buf', e', Some err) => (buf', e' :: extras', Some err)
      | (buf', e', None) =>
          let '(buf'', extras'', err) := read_extras buf' extras' in
          (buf'', e' :: extras'', err)
      end
  end.

Definition recv (m : msg) : M (msg * option error) :=
  '(hb, err) <- ReadFull 24 ;;
  match err with
  | Some e => ret (m, Some e)
  | None =>
      let h := decode_header hb in
      let m := with_hdr m h in
      '(bd, err) <- ReadFull (Z.to_nat (BodyLen h)) ;;
      match err with
      | Some e => ret (m, Some e)
      | None =>
          let '(buf, oex, err) :=
            if (ResvOrStatus h =? 0) && (ExtraLen h >? 0)
            then read_extras bd (oextras m)
            else (bd, oextras m, None) in
          let m := mkMsg h (iextras m) oex (key m) (val m) in
          match err with
          | Some e => ret (m, Some e)
          | None =>
              '(k, buf) <- lift (Next buf (KeyLen h)) ;;
              let vlen := BodyLen h - ExtraLen h - KeyLen h in
              '(v, buf) <- lift (Next buf vlen) ;;
              ret (mkMsg h (iextras m) oex k v, newError (ResvOrStatus h))
          end
      end
  end.

Definition sendRecv (m : msg) : M (msg * option error) :=
  '(m, err) <- send m ;;
  match err with
  | Some e => ret (m, Some e)
  | None => recv m
  end.

Definition Populate (verb : Verb) (item : Item) : M (option error) :=
  let op := verbToOp verb in
  let ocas := if Equal verb Cas then Casid item else 0 in
  let m := mkMsg (mkHeader 0 op 0 0 0 0 0 0 ocas)
                 [U32 (Flags item); U32 (u32 (Expiration item))] []
                 (Key item) (Value item) in
  '(_, err) <- sendRecv m ;;
  if (match err with Some ErrCASConflict => true | _ => false end
      && Equal verb (B "add"))
     || Equal verb (B "replace")
  then ret (Some ErrNotStored)
  else ret err.

Definition byte_at (b : bytes) (i : nat) : Z := code (nth i b zero).

Definition readInt (b : bytes) : Z * option error :=
  if len b =? 8
  then (Z.lor (Z.lor (Z.lor (Z.lor (Z.lor (Z.lor (Z.lor
          (byte_at b 7)
          (Z.shiftl (byte_at b 6) 8))
          (Z.shiftl (byte_at b 5) 16))
          (Z.shiftl (byte_at b 4) 24))
          (Z.shiftl (byte_at b 3) 32))
          (Z.shiftl (byte_at b 2) 40))
          (Z.shiftl (byte_at b 1) 48))
          (Z.shiftl (byte_at b 0) 56), None)
  else (0, Some (Errorf "memcache: error parsing int %s" [b])).

Definition IncrDecr (verb : Verb) (key : bytes) (delta : Z)
  : M (Z * option error) :=
  let op := verbToOp verb in
  let init := 0 in
  let exp := 0xffffffff in
  let m := mkMsg (mkHeader 0 op 0 0 0 0 0 0 0)
                 [U64 delta; U64 init; U32 exp] [] key [] in
  '(m, err) <- sendRecv m ;;
  match err with
  | Some e => ret (0, Some e)
  | None =>
      let '(val, err) := readInt (val m) in
      ret (val, None)
  end.

Definition Ping : M (option error) :=
  let m := mkMsg (mkHeader 0 opVersion 0 0 0 0 0 0 0) [] [] [] [] in
  '(_, err) <- sendRecv m ;; ret err.

Definition LegalKey (key : bytes) : bool := true.

(** *** The other commands *)

Definition opAuthList : Z := 0x20.
Definition opAuthStart : Z := 0x21.

Definition IsAuthSupported : bool := true.

(** The value behind an element of [oextras]. *)
Definition extra_value (e : extra) : Z :=
  match e with
  | U8 z | U16 z | U32 z | U64 z => z
  | XOther => 0
  end.

(** [getOne]; [got] is the sequence of items handed to the callback [cb] so
    far. *)
Definition getOne (key : bytes) (got : list Item)
  : M (list Item * option error) :=
  let flags := U32 0 in
  let m := mkMsg (mkHeader 0 opGet 0 0 0 0 0 0 0) [] [flags] key [] in
  '(m, err) <- sendRecv m ;;
  match err with
  | Some e => ret (got, Some e)
  | None =>
      ret (got ++ [mkItem key (val m) (extra_value (nth 0 (oextras m) flags))
                          0 (CAS (hdr m))],
           None)
  end.

(** The loop of [Get], with [err] the error kept so far. *)
Fixpoint Get_loop (keys : list bytes) (err : option error)
    (got : list Item) : M (list Item * option error) :=
  match keys with
  | [] => ret (got, err)
  | key :: keys' =>
      '(got, eg) <- getOne key got ;;
      let err := match eg with
                 | None => err
                 | Some ErrCacheMiss => err
                 | Some e => Some e
                 end in
      Get_loop keys' err got
  end.

Definition Get (keys : list bytes) (got : list Item)
  : M (list Item * option error) :=
  Get_loop keys None got.

Definition DeleteCas (key : bytes) (cas : Z) : M (option error) :=
  let m := mkMsg (mkHeader 0 opDelete 0 0 0 0 0 0 cas) [] [] key [] in
  '(_, err) <- sendRecv m ;; ret err.

Definition Delete (key : bytes) : M (option error) := DeleteCas key 0.

Definition DeleteAll : M (option error) :=
  let m := mkMsg (mkHeader 0 opFlush 0 0 0 0 0 0 0) [] [] [] [] in
  '(_, err) <- sendRecv m ;; ret err.

Definition FlushAll : M (option error) := DeleteAll.

(** The loop of [Touch]: the message [m] is the one every turn sends and
    receives into. *)
Fixpoint Touch_loop (keys : list bytes) (m : msg) : M (option error) :=
  match keys with
  | [] => ret None
  | key :: keys' =>
      let m := mkMsg (hdr m) (iextras m) (oextras m) key (val m) in
      '(m, err) <- sendRecv m ;;
      match err with
      | Some e => ret (Some e)
      | None => Touch_loop keys' m
      end
  end.

Definition Touch (keys : list bytes) (expiration : Z) : M (option error) :=
  let exp := u32 expiration in
  let m := mkMsg (mkHeader 0 opTouch 0 0 0 0 0 0 0) [U32 exp] [] [] [] in
  Touch_loop keys m.

Definition authPlain (username password : bytes) : M (option error) :=
  let m := mkMsg (mkHeader 0 opAuthStart 0 0 0 0 0 0 0) [] [] (B "PLAIN")
                 ([zero] ++ username ++ [zero] ++ password) in
  '(_, err) <- sendRecv m ;; ret err.

Definition authList : M (bytes * option error) :=
  let m := mkMsg (mkHeader 0 opAuthList 0 0 0 0 0 0 0) [] [] [] [] in
  '(m, err) <- sendRecv m ;; ret (val m, err).

Definition Auth (username password : bytes) : M (option error) :=
  '(s, err) <- authList ;;
  match err with
  | Some e => ret (Some e)
  | None =>
      if negb (Index s (B "PLAIN") =? -1) then authPlain username password
      else ret (Some (Errorf "memcache: unknown auth types %q" [s]))
  end.

End bin.

(** ** Vocabulary of the properties *)

(** The spec's predicate [legal(key)]: at most 250 bytes, each above 0x20
    and other than 0x7F. *)
Definition legal (key : bytes) : Prop :=
  (length key <= 250)%nat /\
  Forall (fun b => code b > 32 /\ code b <> 127) key.

Module conn.
Import types bufio.

(** A connection just dialled, on which the peer will deliver [input]. *)
Definition rw_fresh (input : bytes) : ReadWriter :=
  mkRW input 4096 [] [] false false.

(** The writer works: no sticky error, and the connection takes writes. *)
Definition writable (rw : ReadWriter) : Prop :=
  werr rw = false /\ wdown rw = false.

(** The next read of a line succeeds with [line] and leaves [rest] to be
    delivered. *)
Definition next_line (rw : ReadWriter) (line rest : bytes) : Prop :=
  ReadSlice LF rw = (Ret (line, None), set_rd rw rest).

(** The connection once everything written so far, then [p], is flushed,
    with [rest] left to be delivered. *)
Definition flushed (rw : ReadWriter) (p rest : bytes) : ReadWriter :=
  mkRW rest (rsize rw) [] (sent rw ++ wbuf rw ++ p) false false.

(** Every value the call [c] returns satisfies [P]. *)
Definition returns_in {A} (P : A -> Prop) (c : M A) : Prop :=
  forall rw a rw', c rw = (Ret a, rw') -> P a.

(** A write error, if any: never a sentinel of [types]. *)
Definition write_result (e : option error) : Prop :=
  e = None \/ e = Some ErrTransport.

(** The errors of the reader. *)
Definition read_error (e : error) : Prop :=
  e = EOF \/ e = ErrUnexpectedEOF \/ e = ErrBufferFull.

(** The call was not turned down for its key. *)
Definition not_malformed (e : option error) : Prop :=
  e <> Some ErrMalformedKey.

(** A scanner to run examples with: on a line [VALUE <key> <n> ... \r\n]
    whose fields are separated by single spaces it stores what [fmt.Sscanf]
    stores, the key and the decimal numbers; it rejects every other line. *)
Fixpoint fields (s cur : bytes) : list bytes :=
  match s with
  | [] => [cur]
  | c :: s' => if Ascii.eqb c SP then cur :: fields s' []
               else fields s' (cur ++ [c])
  end.

Fixpoint decimal (s : bytes) (acc : Z) : option Z :=
  match s with
  | [] => Some acc
  | c :: s' => if (48 <=? code c) && (code c <=? 57)
               then decimal s' (10 * acc + (code c - 48))
               else None
  end.

Fixpoint decimals (l : list bytes) : option (list text.scanned) :=
  match l with
  | [] => Some []
  | [] :: _ => None
  | s :: l' =>
      match decimal s 0, decimals l' with
      | Some z, Some r => Some (text.SInt z :: r)
      | _, _ => None
      end
  end.

Definition Sscanf_fields (str format : bytes) (n : nat)
  : list text.scanned * option error :=
  let bad := ([], Some (Errorf "input does not match format" [])) in
  if negb (HasSuffix str crlf) then bad else
  match fields (firstn (length str - 2) str) [] with
  | verb :: key :: nums =>
      if Equal verb (B "VALUE") && (S (length nums) =? n)%nat
      then match decimals nums with
           | Some r => (text.SStr key :: r, None)
           | None => bad
           end
      else bad
  | _ => bad
  end.




(** [l1] is [l2] with some of its elements left out. *)
Inductive subsequence {A : Type} : list A -> list A -> Prop :=
| subsequence_nil : subsequence [] []
| subsequence_skip (x : A) (l1 l2 : list A) :
    subsequence l1 l2 -> subsequence l1 (x :: l2)
| subsequence_take (x : A) (l1 l2 : list A) :
    subsequence l1 l2 -> subsequence (x :: l1) (x :: l2).

(** The store request of the text protocol, in the spec's words:
    [<verb> <key> <flags> <exp> <size>[ <cas>]\r\n], the value, [\r\n];
    the token [<cas>] goes with it when [with_cas] holds. *)
Definition store_request (with_cas : bool) (verb : types.Verb)
    (item : Item) : bytes :=
  verb ++ [SP] ++ Key item ++ [SP] ++ fmt_d (Flags item) ++ [SP]
  ++ fmt_d (Expiration item) ++ [SP] ++ fmt_d (len (Value item))
  ++ (if with_cas then [SP] ++ fmt_d (Casid item) else [])
  ++ crlf ++ Value item ++ crlf.

(** The verbs of [types]. *)
Definition known_verb (verb : types.Verb) : Prop :=
  In verb [Set_; Add; Replace; Cas; Incr; Decr].

(** The header [send] gives a request. *)
Definition request_header (op extraLen : Z) (key val : bytes) (cas : Z)
  : bin.header :=
  bin.mkHeader bin.magicSend op (u16 (len key)) extraLen 0 0
    (u32 (u32 extraLen + u32 (u16 (len key)) + u32 (len val))) 0 cas.

(** The frame of a store: header, flags and expiration as extras, key,
    value. *)
Definition store_frame (op : Z) (item : Item) (cas : Z) : bytes :=
  bin.encode_header (request_header op 8 (Key item) (Value item) cas)
  ++ bin.be 4 (Flags item) ++ bin.be 4 (u32 (Expiration item))
  ++ Key item ++ Value item.

(** The frame of a counter request: header, delta, initial value 0 and
    expiration 0xffffffff as extras, key. *)
Definition counter_frame (op : Z) (key : bytes) (delta : Z) : bytes :=
  bin.encode_header (request_header op 20 key [] 0)
  ++ bin.be 8 delta ++ bin.be 8 0 ++ bin.be 4 0xffffffff ++ key.

(** The peer's next bytes are a response frame: 24 bytes that decode to the
    header [h], then the [BodyLen h] bytes of [body], then [rest]. *)
Definition response (rw : ReadWriter) (h : bin.header) (body rest : bytes)
  : Prop :=
  exists hb, length hb = 24%nat /\ bin.decode_header hb = h /\
             rd rw = hb ++ body ++ rest /\ len body = bin.BodyLen h.

(** The value field of a response: what follows the first [KeyLen h] bytes
    of the body, [BodyLen h - ExtraLen h - KeyLen h] bytes of it at most. *)
Definition response_value (h : bin.header) (body : bytes) : bytes :=
  firstn (Z.to_nat (bin.BodyLen h - bin.ExtraLen h - bin.KeyLen h))
         (skipn (Z.to_nat (bin.KeyLen h)) body).

(** A response header: magic 0x81, the opcode, no key, no extras, the
    status, the length of the body. *)
Definition response_header (op status bodyLen : Z) : bytes :=
  bin.encode_header
    (bin.mkHeader bin.magicRecv op 0 0 0 status bodyLen 0 0).

(** What [bin.Populate] makes of the error of the exchange. *)
Definition store_result (verb : types.Verb) (err : option error)
  : option error :=
  if (match err with Some ErrCASConflict => true | _ => false end
      && Equal verb (B "add"))
     || Equal verb (B "replace")
  then Some ErrNotStored else err.

(** The fields of a header are within their Go types: [Magic], [Op],
    [ExtraLen] and [DataType] are 8 bits wide, [KeyLen] and [ResvOrStatus]
    16, [BodyLen] and [Opaque] 32, [CAS] 64. *)
Definition wf_header (h : bin.header) : Prop :=
  0 <= bin.Magic h < 2 ^ 8 /\ 0 <= bin.Op h < 2 ^ 8 /\
  0 <= bin.KeyLen h < 2 ^ 16 /\ 0 <= bin.ExtraLen h < 2 ^ 8 /\
  0 <= bin.DataType h < 2 ^ 8 /\ 0 <= bin.ResvOrStatus h < 2 ^ 16 /\
  0 <= bin.BodyLen h < 2 ^ 32 /\ 0 <= bin.Opaque h < 2 ^ 32 /\
  0 <= bin.CAS h < 2 ^ 64.

(** The extras are of the four types [sizeOfExtras] knows. *)
Definition typed_extras (extras : list bin.extra) : Prop :=
  Forall (fun e => e <> bin.XOther) extras.

(** The number of bytes the extras take on the wire. *)
Definition extras_size (extras : list bin.extra) : Z :=
  fold_right (fun e n => Z.of_nat (bin.width e) + n) 0 extras.

(** The extras on the wire. *)
Definition extras_bytes (extras : list bin.extra) : bytes :=
  flat_map (fun e => bin.be (bin.width e) (bin.extra_value e)) extras.

(** The frame of a request without extras: header, key, value. *)
Definition key_frame (op : Z) (key val : bytes) (cas : Z) : bytes :=
  bin.encode_header (request_header op 0 key val cas) ++ key ++ val.

(** The frame [bin.Touch] sends from a message whose header is [hd] and
    whose value is [val]: [send] keeps the opcode, the data type, the
    status, the opaque and the CAS of [hd]. *)
Definition touch_frame (hd : bin.header) (exp : Z) (key val : bytes)
  : bytes :=
  bin.encode_header
    (bin.mkHeader bin.magicSend (bin.Op hd) (u16 (len key)) 4
       (bin.DataType hd) (bin.ResvOrStatus hd)
       (u32 (u32 4 + u32 (u16 (len key)) + u32 (len val)))
       (bin.Opaque hd) (bin.CAS hd))
  ++ bin.be 4 exp ++ key ++ val.

(** [sub] occurs in [s]. *)
Definition contains (s sub : bytes) : Prop :=
  exists pre post, s = pre ++ sub ++ post.

End conn.

(** * Properties *)

(** ** Byte strings and the connection *)

Lemma Equal_refl (a : bytes) : Equal a a = true.
Proof.
  induction a as [|x a IH]; simpl; [reflexivity|].
  now rewrite Ascii.eqb_refl, IH.
Qed.

Lemma Equal_eq (a b : bytes) : Equal a b = true <-> a = b.
Proof.
  split; [|intros ->; apply Equal_refl].
  revert b; induction a as [|x a IH]; intros [|y b]; simpl;
    try discriminate; [reflexivity|].
  intros H; apply andb_true_iff in H as [Hx Hab].
  apply Ascii.eqb_eq in Hx; subst y. f_equal. now apply IH.
Qed.

Lemma Equal_neq (a b : bytes) : Equal a b = false <-> a <> b.
Proof.
  split.
  - intros H E. apply Equal_eq in E. congruence.
  - intros H. destruct (Equal a b) eqn:E; [|reflexivity].
    apply Equal_eq in E. contradiction.
Qed.

Lemma firstn_app_exact {A} (a b : list A) : firstn (length a) (a ++ b) = a.
Proof. induction a as [|x a IH]; simpl; [now destruct b | now rewrite IH]. Qed.

Lemma skipn_app_exact {A} (a b : list A) : skipn (length a) (a ++ b) = b.
Proof. induction a as [|x a IH]; simpl; [reflexivity | exact IH]. Qed.

(** [%d] on a zero, a positive and a negative number. *)
Example fmt_d_samples :
  fmt_d 0 = B "0" /\ fmt_d 4294967295 = B "4294967295" /\ fmt_d (-2) = B "-2".
Proof. repeat split; reflexivity. Qed.

Module ConnProps.
Import types bufio conn.

Lemma Write_writable (p : bytes) (rw : ReadWriter) :
  werr rw = false ->
  Write p rw
  = (Ret None,
     mkRW (rd rw) (rsize rw) (wbuf rw ++ p) (sent rw) false (wdown rw)).
Proof. intros H. unfold Write. now rewrite H. Qed.

Lemma Flush_writable (rw : ReadWriter) :
  writable rw ->
  Flush rw
  = (Ret None, mkRW (rd rw) (rsize rw) [] (sent rw ++ wbuf rw) false false).
Proof.
  intros [He Hd]. unfold Flush. rewrite He.
  destruct rw as [r n [|b w] s e d]; simpl in *; subst.
  - now rewrite app_nil_r.
  - reflexivity.
Qed.

(** Writing [p] and flushing on a working writer. *)
Lemma Write_Flush (p : bytes) (rw : ReadWriter) :
  writable rw ->
  exists rw1,
    Write p rw = (Ret None, rw1) /\
    Flush rw1 = (Ret None, flushed rw p (rd rw)).
Proof.
  intros [He Hd]. eexists; split; [now apply Write_writable|].
  rewrite Flush_writable by (split; [reflexivity | exact Hd]). reflexivity.
Qed.

(** Reading looks at [rd] and [rsize] only. *)
Lemma ReadSlice_frame (d : ascii) (rw rw1 : ReadWriter) :
  rd rw1 = rd rw -> rsize rw1 = rsize rw ->
  ReadSlice d rw1
  = (fst (ReadSlice d rw), set_rd rw1 (rd (snd (ReadSlice d rw)))).
Proof.
  intros Hr Hn. unfold ReadSlice. rewrite Hr, Hn.
  destruct (IndexByte (firstn (rsize rw) (rd rw)) d); [reflexivity|].
  destruct (rsize rw <=? length (rd rw))%nat; reflexivity.
Qed.

Lemma next_line_flushed (rw : ReadWriter) (line rest p : bytes) :
  next_line rw line rest ->
  ReadSlice LF (flushed rw p (rd rw))
  = (Ret (line, None), flushed rw p rest).
Proof.
  unfold next_line. intros H.
  rewrite (ReadSlice_frame LF rw) by reflexivity.
  rewrite H. reflexivity.
Qed.

Lemma IndexByte_found (s : bytes) (c : ascii) (i : nat) :
  IndexByte s c = Some i -> (i < length s)%nat /\ nth i s zero = c.
Proof.
  revert i; induction s as [|x s IH]; simpl; intros i; [discriminate|].
  destruct (Ascii.eqb x c) eqn:E.
  - intros [= <-]. apply Ascii.eqb_eq in E. split; [lia | exact E].
  - destruct (IndexByte s c) as [j|]; simpl; [|discriminate].
    intros [= <-]. destruct (IH j eq_refl). split; [lia | assumption].
Qed.

(** A line that was read is not empty: it ends with the delimiter. *)
Lemma ReadSlice_line_nonempty (d : ascii) (rw rw' : ReadWriter)
    (line : bytes) :
  ReadSlice d rw = (Ret (line, None), rw') ->
  exists c rest, rd rw = c :: rest /\ (length (rd rw') <= length rest)%nat.
Proof.
  unfold ReadSlice.
  destruct (IndexByte (firstn (rsize rw) (rd rw)) d) as [i|] eqn:E.
  - intros [= <- <-]. destruct (rd rw) as [|c rest] eqn:R.
    + rewrite firstn_nil in E. discriminate.
    + exists c, rest. split; [reflexivity|]. simpl.
      rewrite length_skipn. lia.
  - destruct (rsize rw <=? length (rd rw))%nat; intros [=].
Qed.

Lemma returns_ret {A} (P : A -> Prop) (a : A) : P a -> returns_in P (ret a).
Proof. intros H rw a' rw' [= <- _]. exact H. Qed.

Lemma returns_any {A} (c : M A) : returns_in (fun _ => True) c.
Proof. intros rw a rw' _. exact I. Qed.

Lemma returns_bind {A C} (P : A -> Prop) (Q : C -> Prop) (c : M A)
    (k : A -> M C) :
  returns_in P c ->
  (forall a, P a -> returns_in Q (k a)) ->
  returns_in Q (bind c k).
Proof.
  intros Hc Hk rw b rw'. unfold bind.
  destruct (c rw) as [[a|msg|] rw1] eqn:E; try discriminate.
  intros H. exact (Hk a (Hc _ _ _ E) _ _ _ H).
Qed.

Lemma returns_weaken {A} (P Q : A -> Prop) (c : M A) :
  (forall a, P a -> Q a) -> returns_in P c -> returns_in Q c.
Proof. intros HPQ Hc rw a rw' H. exact (HPQ a (Hc _ _ _ H)). Qed.

Lemma returns_Write (p : bytes) : returns_in write_result (Write p).
Proof.
  intros rw a rw'. unfold Write, write_result.
  destruct (werr rw); intros [= <- _]; auto.
Qed.

Lemma returns_Flush : returns_in write_result Flush.
Proof.
  intros rw a rw'. unfold Flush, write_result.
  destruct (werr rw); [intros [= <- _]; auto|].
  destruct (wbuf rw); [intros [= <- _]; auto|].
  destruct (wdown rw); intros [= <- _]; auto.
Qed.

(** [if err := c; err != nil { return err }] after a write: the error
    returned is the write's, or one of what follows. *)
Lemma returns_check (Q : option error -> Prop) (c k : M (option error)) :
  returns_in write_result c ->
  Q (Some ErrTransport) ->
  returns_in Q k ->
  returns_in Q (bind c (fun err => match err with
                                   | Some e => ret (Some e)
                                   | None => k
                                   end)).
Proof.
  intros Hc Ht Hk. apply (returns_bind write_result); [exact Hc|].
  intros a [-> | ->]; [exact Hk | now apply returns_ret].
Qed.

Lemma returns_ReadSlice (d : ascii) :
  returns_in (fun x => forall e, snd x = Some e -> read_error e) (ReadSlice d).
Proof.
  intros rw [line err] rw'. unfold ReadSlice, read_error.
  destruct (IndexByte _ _); [intros [= _ <- _]; discriminate|].
  destruct (_ <=? _)%nat; intros [= _ <- _] e [= <-]; auto.
Qed.

Lemma returns_ReadFull (n : nat) :
  returns_in (fun x => forall e, snd x = Some e -> read_error e) (ReadFull n).
Proof.
  intros rw [buf err] rw'. unfold ReadFull, read_error.
  destruct n; [intros [= _ <- _]; discriminate|].
  destruct (rd rw); [intros [= _ <- _] e [= <-]; auto|].
  destruct (_ <=? _)%nat; intros [= _ <- _] e; [discriminate|].
  intros [= <-]; auto.
Qed.

Lemma ReadSlice_Ret (d : ascii) (rw : ReadWriter) :
  exists x rw', ReadSlice d rw = (Ret x, rw').
Proof.
  unfold ReadSlice. destruct (IndexByte _ _); [eauto|].
  destruct (_ <=? _)%nat; eauto.
Qed.

Lemma ReadFull_Ret (n : nat) (rw : ReadWriter) :
  exists x rw', ReadFull n rw = (Ret x, rw').
Proof.
  unfold ReadFull. destruct n; [eauto|].
  destruct (rd rw); [eauto|].
  destruct (_ <=? _)%nat; eauto.
Qed.

Lemma ReadFull_ok (n : nat) (rw rw' : ReadWriter) (buf : bytes) :
  ReadFull n rw = (Ret (buf, None), rw') ->
  (n <= length (rd rw))%nat /\ buf = firstn n (rd rw) /\
  rw' = set_rd rw (skipn n (rd rw)).
Proof.
  unfold ReadFull. destruct n as [|m].
  - intros [= <- <-]. destruct rw; repeat split; simpl; lia.
  - destruct (rd rw) as [|c r] eqn:E; [discriminate|].
    destruct (Nat.leb_spec (S m) (length (c :: r))); [|discriminate].
    intros [= <- <-]. repeat split; assumption.
Qed.

Lemma ReadFull_enough (n : nat) (rw : ReadWriter) :
  (n <= length (rd rw))%nat ->
  ReadFull n rw
  = (Ret (firstn n (rd rw), None), set_rd rw (skipn n (rd rw))).
Proof.
  intros H. unfold ReadFull. destruct n as [|m].
  - destruct rw; reflexivity.
  - destruct (rd rw) as [|c r] eqn:E; [simpl in H; lia|].
    destruct (Nat.leb_spec (S m) (length (c :: r))); [reflexivity | lia].
Qed.

Lemma ReadFull_short (n : nat) (rw : ReadWriter) :
  (length (rd rw) < n)%nat ->
  exists buf e rw', ReadFull n rw = (Ret (buf, Some e), rw') /\ read_error e.
Proof.
  intros H. unfold ReadFull, read_error. destruct n as [|m]; [lia|].
  destruct (rd rw) as [|c r] eqn:E; [eauto 8|].
  destruct (Nat.leb_spec (S m) (length (c :: r))); [lia | eauto 8].
Qed.

(** Reading leaves the writer alone. *)
Lemma ReadFull_frame (n : nat) (rw : ReadWriter) :
  exists x r, ReadFull n rw = (Ret x, set_rd rw r).
Proof.
  unfold ReadFull. destruct n.
  - exists ([], None), (rd rw). destruct rw; reflexivity.
  - destruct (rd rw) eqn:E.
    + exists ([], Some EOF), []. destruct rw; simpl in *; subst; reflexivity.
    + destruct (_ <=? _)%nat; eauto.
Qed.

End ConnProps.

Module TextProps.
Import types bufio conn text ConnProps.
Local Open Scope go_scope.

Lemma LegalKey_loop_Forall (key : bytes) :
  LegalKey_loop key = true <->
  Forall (fun b => code b > 32 /\ code b <> 127) key.
Proof.
  induction key as [|c key IH]; simpl.
  - split; [constructor | reflexivity].
  - change (code SP) with 32.
    destruct (code c <=? 32) eqn:Hle; simpl.
    + split; [discriminate|]. intros H; inversion H; subst.
      apply Z.leb_le in Hle. lia.
    + destruct (code c =? 127) eqn:Heq.
      * split; [discriminate|]. intros H; inversion H; subst.
        apply Z.eqb_eq in Heq. lia.
      * rewrite IH. apply Z.leb_gt in Hle. apply Z.eqb_neq in Heq.
        split; [intros H; constructor; [lia | exact H]
               | intros H; inversion H; assumption].
Qed.

Lemma LegalKey_legal (key : bytes) : LegalKey key = true <-> legal key.
Proof.
  unfold LegalKey, legal, len.
  destruct (Z.of_nat (length key) >? 250) eqn:Hlen.
  - split; [discriminate|]. intros [H _].
    apply Z.gtb_lt in Hlen. lia.
  - rewrite LegalKey_loop_Forall.
    assert (length key <= 250)%nat.
    { destruct (Z.gtb_spec (Z.of_nat (length key)) 250); [discriminate | lia]. }
    tauto.
Qed.

(** C5. The text driver's [LegalKey] holds exactly for the keys of at most
    250 bytes whose bytes are all above 0x20 and other than 0x7F; and for an
    item whose key is not such a key, [Populate] returns [ErrMalformedKey]
    and leaves the connection as it found it: nothing is written. *)
Theorem text_LegalKey_guards_Populate (verb : Verb) (item : Item)
    (rw : ReadWriter) :
  (LegalKey (Key item) = true <-> legal (Key item)) /\
  (~ legal (Key item) ->
   Populate verb item rw = (Ret (Some ErrMalformedKey), rw)).
Proof.
  split; [apply LegalKey_legal|].
  intros Hbad. unfold Populate.
  destruct (LegalKey (Key item)) eqn:E; [|reflexivity].
  apply LegalKey_legal in E. contradiction.
Qed.

Lemma text_LegalKey_guards_Populate_witness :
  ~ legal (B "foo bar") /\
  Populate Set_ (mkItem (B "foo bar") (B "foobarval") 0 0 0)
           (rw_fresh (B "STORED" ++ crlf))
  = (Ret (Some ErrMalformedKey), rw_fresh (B "STORED" ++ crlf)).
Proof.
  assert (Hbad : ~ legal (B "foo bar")).
  { intros H. apply LegalKey_legal in H. discriminate H. }
  split; [exact Hbad|].
  apply (text_LegalKey_guards_Populate
           Set_ (mkItem (B "foo bar") (B "foobarval") 0 0 0)
           (rw_fresh (B "STORED" ++ crlf))).
  exact Hbad.
Defined.

(** The tail of a store: the value, CRLF, a flush, and the read of the
    response line, handed to [k]. *)
Lemma store_tail (k : bytes * option error -> M (option error))
    (rw : ReadWriter) (w v line rest : bytes) :
  wdown rw = false ->
  next_line rw line rest ->
  bind (Write v) (fun err => match err with
    | Some e => ret (Some e)
    | None => bind (Write crlf) (fun err => match err with
      | Some e => ret (Some e)
      | None => bind Flush (fun err => match err with
        | Some e => ret (Some e)
        | None => bind (ReadSlice LF) k
        end)
      end)
    end)
    (mkRW (rd rw) (rsize rw) (wbuf rw ++ w) (sent rw) false (wdown rw))
  = k (line, None) (flushed rw (w ++ v ++ crlf) rest).
Proof.
  intros Hd Hline.
  unfold bind at 1. unfold Write at 1. cbv beta iota delta [werr].
  unfold bind at 1. unfold Write at 1. cbv beta iota delta [werr].
  unfold bind at 1.
  rewrite Flush_writable by (split; [reflexivity | exact Hd]).
  unfold bind.
  rewrite (ReadSlice_frame LF rw) by reflexivity.
  unfold next_line in Hline. rewrite Hline.
  cbv beta iota delta [fst snd set_rd rd rsize wbuf sent werr wdown].
  unfold flushed. now rewrite <- !app_assoc.
Qed.

(** What a store makes of the response line. *)
Lemma text_Populate_run (verb : Verb) (item : Item) (rw : ReadWriter)
    (line rest : bytes) :
  LegalKey (Key item) = true ->
  writable rw ->
  next_line rw line rest ->
  Populate verb item rw
  = (Ret (if Equal line resultStored then None
          else if Equal line resultNotStored then Some ErrNotStored
          else if Equal line resultExists then Some ErrCASConflict
          else if Equal line resultNotFound then Some ErrCacheMiss
          else Some (Errorf "memcache: unexpected response line from %q: %q"
                            [verb; line])),
     flushed rw (store_request (Equal verb Cas) verb item) rest).
Proof.
  intros Hkey [He Hd] Hline.
  unfold Populate. rewrite Hkey. cbv beta iota delta [negb].
  unfold bind at 1.
  assert (Hw : forall p,
    Fprintf p rw
    = (Ret None,
       mkRW (rd rw) (rsize rw) (wbuf rw ++ p) (sent rw) false (wdown rw))).
  { intros p. unfold Fprintf. now apply Write_writable. }
  unfold store_request.
  destruct (Equal verb Cas); rewrite Hw;
    rewrite (store_tail _ rw _ _ line rest Hd Hline);
    rewrite <- !app_assoc;
    (destruct (Equal line resultStored); [reflexivity|]);
    (destruct (Equal line resultNotStored); [reflexivity|]);
    (destruct (Equal line resultExists); [reflexivity|]);
    (destruct (Equal line resultNotFound); reflexivity).
Qed.

(** C6. A store through the text driver, on a legal key and a working
    writer, sends the request line, the value and CRLF, and maps the response
    line: STORED is success, NOT_STORED is [ErrNotStored], EXISTS is
    [ErrCASConflict], NOT_FOUND is [ErrCacheMiss], any other line is a
    protocol error; the request carries the cas token when the verb is "cas"
    and does not carry it when the verb is anything else. *)
Theorem text_Populate_response (verb : Verb) (item : Item) (rw : ReadWriter)
    (line rest : bytes) :
  LegalKey (Key item) = true ->
  writable rw ->
  next_line rw line rest ->
  exists (r : option error) (with_cas : bool),
    Populate verb item rw
    = (Ret r, flushed rw (store_request with_cas verb item) rest) /\
    (verb = Cas -> with_cas = true) /\
    (verb <> Cas -> with_cas = false) /\
    (line = resultStored -> r = None) /\
    (line = resultNotStored -> r = Some ErrNotStored) /\
    (line = resultExists -> r = Some ErrCASConflict) /\
    (line = resultNotFound -> r = Some ErrCacheMiss) /\
    (line <> resultStored -> line <> resultNotStored ->
     line <> resultExists -> line <> resultNotFound ->
     is_protocol_error r = true).
Proof.
  intros Hkey Hw Hline.
  eexists; exists (Equal verb Cas).
  split; [exact (text_Populate_run verb item rw line rest Hkey Hw Hline)|].
  split; [intros ->; apply Equal_refl|].
  split; [intros H; now apply Equal_neq|].
  repeat split.
  - intros ->. reflexivity.
  - intros ->. reflexivity.
  - intros ->. reflexivity.
  - intros ->. reflexivity.
  - intros H1 H2 H3 H4.
    apply Equal_neq in H1, H2, H3, H4. now rewrite H1, H2, H3, H4.
Qed.

Lemma text_Populate_response_witness :
  Populate Cas (mkItem (B "foo") (B "v3") 123 0 7)
           (rw_fresh (B "EXISTS" ++ crlf))
  = (Ret (Some ErrCASConflict),
     mkRW [] 4096 [] (B "cas foo 123 0 2 7" ++ crlf ++ B "v3" ++ crlf)
          false false).
Proof.
  destruct (text_Populate_response Cas (mkItem (B "foo") (B "v3") 123 0 7)
              (rw_fresh (B "EXISTS" ++ crlf)) (B "EXISTS" ++ crlf) [])
    as (r & c & Hrun & Hcas & _ & _ & _ & Hexists & _).
  - reflexivity.
  - split; reflexivity.
  - reflexivity.
  - rewrite Hrun, (Hcas eq_refl), (Hexists eq_refl). reflexivity.
Defined.

(** The exchange of [writeReadLine] on a working writer. *)
Lemma writeReadLine_run (formatted : bytes) (rw : ReadWriter)
    (line rest : bytes) :
  writable rw ->
  next_line rw line rest ->
  writeReadLine formatted rw = (Ret (line, None), flushed rw formatted rest).
Proof.
  intros [He Hd] Hline. unfold writeReadLine, Fprintf.
  unfold bind at 1. rewrite Write_writable by exact He.
  unfold bind at 1.
  rewrite Flush_writable by (split; [reflexivity | exact Hd]).
  cbv beta iota delta [rd rsize wbuf sent].
  rewrite (ReadSlice_frame LF rw) by reflexivity.
  unfold next_line in Hline. rewrite Hline. reflexivity.
Qed.

Lemma writeExpectf_run (expect formatted : bytes) (rw : ReadWriter)
    (line rest : bytes) :
  writable rw ->
  next_line rw line rest ->
  writeExpectf expect formatted rw
  = (Ret (if Equal line resultOK then None
          else if Equal line expect then None
          else if Equal line resultNotStored then Some ErrNotStored
          else if Equal line resultExists then Some ErrCASConflict
          else if Equal line resultNotFound then Some ErrCacheMiss
          else Some (Errorf "memcache: unexpected response line: %q" [line])),
     flushed rw formatted rest).
Proof.
  intros Hw Hline. unfold writeExpectf, bind.
  rewrite (writeReadLine_run formatted rw line rest Hw Hline).
  destruct (Equal line resultOK); [reflexivity|].
  destruct (Equal line expect); [reflexivity|].
  destruct (Equal line resultNotStored); [reflexivity|].
  destruct (Equal line resultExists); [reflexivity|].
  destruct (Equal line resultNotFound); reflexivity.
Qed.

(** C10. A delete through the text driver, on a working writer, maps the
    response line with the classifier it shares with [DeleteAll] and
    [FlushAll]: besides DELETED (success) and NOT_FOUND ([ErrCacheMiss]), the
    line OK is success, NOT_STORED is [ErrNotStored] and EXISTS is
    [ErrCASConflict]; [DeleteAll] returns the same result on the same
    line, and so does [FlushAll] on every line but DELETED. *)
Theorem text_Delete_response (key : bytes) (rw : ReadWriter)
    (line rest : bytes) :
  writable rw ->
  next_line rw line rest ->
  exists r : option error,
    Delete key rw
    = (Ret r, flushed rw (B "delete " ++ key ++ crlf) rest) /\
    DeleteAll rw = (Ret r, flushed rw (B "flush_all" ++ crlf) rest) /\
    (line <> resultDeleted ->
     FlushAll rw = (Ret r, flushed rw (B "flush_all" ++ crlf) rest)) /\
    (line = resultDeleted -> r = None) /\
    (line = resultNotFound -> r = Some ErrCacheMiss) /\
    (line = resultOK -> r = None) /\
    (line = resultNotStored -> r = Some ErrNotStored) /\
    (line = resultExists -> r = Some ErrCASConflict).
Proof.
  intros Hw Hline. eexists.
  split; [exact (writeExpectf_run _ _ rw line rest Hw Hline)|].
  split; [exact (writeExpectf_run _ _ rw line rest Hw Hline)|].
  split.
  { intros Hd. unfold FlushAll.
    rewrite (writeExpectf_run _ _ rw line rest Hw Hline).
    apply Equal_neq in Hd. rewrite Hd.
    destruct (Equal line resultOK); reflexivity. }
  repeat split; intros ->; reflexivity.
Qed.

Lemma text_Delete_response_witness :
  Delete (B "foo") (rw_fresh (B "OK" ++ crlf))
  = (Ret None, mkRW [] 4096 [] (B "delete foo" ++ crlf) false false).
Proof.
  destruct (text_Delete_response (B "foo") (rw_fresh (B "OK" ++ crlf))
              (B "OK" ++ crlf) [])
    as (r & Hrun & _ & _ & _ & _ & Hok & _).
  - split; reflexivity.
  - reflexivity.
  - rewrite Hrun, (Hok eq_refl). reflexivity.
Defined.

(** One turn of the loop of [Touch] on a working writer. *)
Lemma text_Touch_step (key : bytes) (keys : list bytes) (expiration : Z)
    (rw : ReadWriter) (line rest : bytes) :
  writable rw ->
  next_line rw line rest ->
  Touch (key :: keys) expiration rw
  = (if Equal line resultTouched then Touch keys expiration
     else if Equal line resultNotFound then ret (Some ErrCacheMiss)
     else ret (Some (Errorf
            "memcache: unexpected response line from touch: %q" [line])))
      (flushed rw (B "touch " ++ key ++ [SP] ++ fmt_d expiration ++ crlf)
               rest).
Proof.
  intros [He Hd] Hline.
  cbv beta iota delta [Touch]. fold Touch. unfold Fprintf.
  unfold bind at 1. rewrite Write_writable by exact He.
  unfold bind at 1.
  rewrite Flush_writable by (split; [reflexivity | exact Hd]).
  cbv beta iota delta [rd rsize wbuf sent].
  unfold bind.
  rewrite (ReadSlice_frame LF rw) by reflexivity.
  unfold next_line in Hline. rewrite Hline.
  cbv beta iota delta [fst snd set_rd rd rsize wbuf sent werr wdown].
  reflexivity.
Qed.

(** C4, as the code has it.  The text driver implements [Touch]: with no
    key left it returns success; for the next key, on a working writer, it
    sends [touch <key> <expiration>\r\n] and reads one line: on TOUCHED it
    goes on with the remaining keys, on NOT_FOUND it returns [ErrCacheMiss],
    on any other line a protocol error. *)
Theorem text_Touch_exchange (key : bytes) (keys : list bytes)
    (expiration : Z) (rw : ReadWriter) (line rest : bytes) :
  writable rw ->
  next_line rw line rest ->
  let rw' :=
    flushed rw (B "touch " ++ key ++ [SP] ++ fmt_d expiration ++ crlf) rest in
  Touch [] expiration rw = (Ret None, rw) /\
  (line = resultTouched ->
   Touch (key :: keys) expiration rw = Touch keys expiration rw') /\
  (line = resultNotFound ->
   Touch (key :: keys) expiration rw = (Ret (Some ErrCacheMiss), rw')) /\
  (line <> resultTouched -> line <> resultNotFound ->
   exists e, Touch (key :: keys) expiration rw = (Ret e, rw') /\
             is_protocol_error e = true).
Proof.
  intros Hw Hline rw'.
  split; [reflexivity|].
  pose proof (text_Touch_step key keys expiration rw line rest Hw Hline)
    as Hstep.
  fold rw' in Hstep.
  repeat split.
  - intros ->. rewrite Hstep. reflexivity.
  - intros ->. rewrite Hstep. reflexivity.
  - intros H1 H2. apply Equal_neq in H1, H2.
    rewrite Hstep, H1, H2. eexists. split; reflexivity.
Qed.

Lemma text_Touch_exchange_witness :
  Touch [B "foo"; B "bar"] 2
        (rw_fresh (B "TOUCHED" ++ crlf ++ B "NOT_FOUND" ++ crlf))
  = (Ret (Some ErrCacheMiss),
     mkRW [] 4096 []
          (B "touch foo 2" ++ crlf ++ B "touch bar 2" ++ crlf) false false).
Proof.
  destruct (text_Touch_exchange (B "foo") [B "bar"] 2
              (rw_fresh (B "TOUCHED" ++ crlf ++ B "NOT_FOUND" ++ crlf))
              (B "TOUCHED" ++ crlf) (B "NOT_FOUND" ++ crlf))
    as (_ & Htouched & _).
  - split; reflexivity.
  - reflexivity.
  - rewrite (Htouched eq_refl). reflexivity.
Defined.

(** C4, as the claim has it, fails: the text driver does perform a touch
    exchange.  On a fresh connection whose peer answers TOUCHED, [Touch] of
    the key "foo" writes the request [touch foo 2\r\n], consumes the answer
    and returns success, not a "not supported" error. *)
Lemma text_Touch_performs_exchange :
  Touch [B "foo"] 2 (rw_fresh (B "TOUCHED" ++ crlf))
  = (Ret None, mkRW [] 4096 [] (B "touch foo 2" ++ crlf) false false).
Proof. reflexivity. Qed.

(** The empty key passes [LegalKey], so a store of an item with the empty
    key is not turned down: every result of [Populate] on it comes from the
    exchange. *)
Lemma text_Populate_empty_key (verb : Verb) (item : Item) :
  Key item = [] ->
  returns_in not_malformed (Populate verb item).
Proof.
  intros Hk. unfold Populate. rewrite Hk.
  change (LegalKey []) with true. cbv beta iota delta [negb].
  apply returns_check; [|discriminate|].
  { destruct (Equal verb Cas); apply returns_Write. }
  apply returns_check; [apply returns_Write|discriminate|].
  apply returns_check; [apply returns_Write|discriminate|].
  apply returns_check; [apply returns_Flush|discriminate|].
  eapply returns_bind; [apply (returns_ReadSlice LF)|].
  intros [line [e|]] He; cbn [snd] in He.
  - apply returns_ret. destruct (He e eq_refl) as [-> | [-> | ->]];
      discriminate.
  - destruct (Equal line resultStored); [apply returns_ret; discriminate|].
    destruct (Equal line resultNotStored); [apply returns_ret; discriminate|].
    destruct (Equal line resultExists); [apply returns_ret; discriminate|].
    destruct (Equal line resultNotFound); apply returns_ret; discriminate.
Qed.

(** *** Retrieval *)

Section RetrievalProps.

Variable Sscanf : bytes -> bytes -> nat -> list scanned * option error.

Lemma parseGetResponse_loop_unfold (fuel : nat) (got : list Item) :
  parseGetResponse_loop Sscanf (S fuel) got
  = bind (ReadSlice LF) (fun x =>
      let (line, err) := x in
      match err with
      | Some e => ret (got, Some e)
      | None =>
          if Equal line resultEnd then ret (got, None) else
          let '(it, size, err) := scanGetResponseLine Sscanf line newItem in
          match err with
          | Some e => ret (got, Some e)
          | None =>
              let n := int64 (size + 2) in
              if (n <? 0) || (n >? maxAlloc)
              then panic "makeslice: len out of range" else
              bind (ReadFull (Z.to_nat n)) (fun y =>
                let (value, err) := y in
                match err with
                | Some e => ret (got, Some e)
                | None =>
                    if negb (HasSuffix value crlf)
                    then ret (got, Some (Errorf
                                "memcache: corrupt get result read" []))
                    else parseGetResponse_loop Sscanf fuel
                           (got ++ [with_Value it
                                      (firstn (Z.to_nat size) value)])
                end)
          end
      end).
Proof. reflexivity. Qed.


(** [parseGetResponse] returns or panics: its loop ends within the
    budget. *)
Lemma parseGetResponse_returns (got : list Item) (rw : ReadWriter) :
  fst (parseGetResponse Sscanf got rw) <> Diverge.
Proof.
  unfold parseGetResponse.
  assert (H : forall f got rw,
             (length (rd rw) < f)%nat ->
             fst (parseGetResponse_loop Sscanf f got rw) <> Diverge).
  { clear. induction f as [|f IH]; intros got rw Hf; [lia|].
    rewrite parseGetResponse_loop_unfold. unfold bind.
    destruct (ReadSlice_Ret LF rw) as (x & rw1 & ERS). rewrite ERS.
    destruct x as [line [e|]]; [discriminate|].
    destruct (Equal line resultEnd); [discriminate|].
    destruct (scanGetResponseLine Sscanf line newItem)
      as [[it size] [e|]]; [discriminate|].
    cbv zeta.
    destruct ((int64 (size + 2) <? 0) || (int64 (size + 2) >? maxAlloc));
      [discriminate|].
    destruct (ReadFull_Ret (Z.to_nat (int64 (size + 2))) rw1)
      as (y & rw2 & ERF). rewrite ERF.
    destruct y as [value [e|]]; [discriminate|].
    destruct (negb _); [discriminate|].
    apply ReadSlice_line_nonempty in ERS as (c & r & Hrd & Hlen).
    apply ReadFull_ok in ERF as (_ & _ & ->).
    apply IH. simpl. rewrite length_skipn.
    rewrite Hrd in Hf. simpl in Hf. lia. }
  apply H. lia.
Qed.

Lemma int64_small (z : Z) : - 2 ^ 63 <= z < 2 ^ 63 -> int64 z = z.
Proof.
  intros H. unfold int64.
  rewrite Z.mod_small by lia. lia.
Qed.






End RetrievalProps.



(** A payload that is not followed by CRLF: the item is not delivered. *)
Example text_parseGetResponse_corrupt :
  parseGetResponse Sscanf_fields []
    (rw_fresh (B "VALUE foo 123 6 7" ++ crlf ++ B "foovalue" ++ crlf
               ++ B "END" ++ crlf))
  = (Ret ([], Some (Errorf "memcache: corrupt get result read" [])),
     rw_fresh (crlf ++ B "END" ++ crlf)).
Proof. reflexivity. Qed.

End TextProps.

(** ** The binary driver *)

Module BinProps.
Import types bufio conn bin ConnProps.
Local Open Scope go_scope.

Lemma de_nonneg (bs : bytes) : 0 <= de bs.
Proof.
  unfold de.
  assert (H : forall acc, 0 <= acc ->
    0 <= fold_left (fun acc b => Z.lor (Z.shiftl acc 8) (code b)) bs acc).
  { induction bs as [|b bs IH]; intros acc Hacc; cbn [fold_left];
      [exact Hacc|].
    apply IH. apply Z.lor_nonneg. split.
    - rewrite Z.shiftl_nonneg. exact Hacc.
    - unfold code. apply N2Z.is_nonneg. }
  apply H. lia.
Qed.

(** [send] on a working writer: the frame goes out, whole. *)
Lemma send_run (m : msg) (rw : ReadWriter) (extraLen : Z) (b : bytes) :
  writable rw ->
  sizeOfExtras (iextras m) = Ret extraLen ->
  let h := mkHeader magicSend (Op (hdr m)) (u16 (len (key m))) extraLen
             (DataType (hdr m)) (ResvOrStatus (hdr m))
             (u32 (u32 extraLen + u32 (u16 (len (key m)))
                   + u32 (len (val m))))
             (Opaque (hdr m)) (CAS (hdr m)) in
  write_extras (encode_header h) (iextras m) = (b, None) ->
  send m rw
  = (Ret (with_hdr m h, None), flushed rw (b ++ key m ++ val m) (rd rw)).
Proof.
  intros [He Hd] Hsz h Hwe.
  unfold send. unfold bind at 1. unfold lift. rewrite Hsz.
  cbv zeta. fold h.
  change (iextras (with_hdr m h)) with (iextras m). rewrite Hwe.
  change (key (with_hdr m h)) with (key m).
  change (val (with_hdr m h)) with (val m).
  unfold bind at 1. rewrite Write_writable by exact He.
  unfold bind.
  rewrite Flush_writable by (split; [reflexivity | exact Hd]).
  cbv beta iota delta [rd rsize wbuf sent ret]. unfold flushed.
  now rewrite <- !app_assoc.
Qed.

(** [recv] of a response frame whose lengths fit, when no extras are
    expected back. *)
Lemma recv_run (m : msg) (rw : ReadWriter) (h : header)
    (body rest : bytes) :
  response rw h body rest ->
  oextras m = [] ->
  ExtraLen h + KeyLen h <= BodyLen h ->
  recv m rw
  = (Ret (mkMsg h (iextras m) [] (firstn (Z.to_nat (KeyLen h)) body)
                (response_value h body),
          newError (ResvOrStatus h)),
     set_rd rw rest).
Proof.
  intros (hb & Hlen & Hdec & Hrd & Hbody) Hox Hfit.
  assert (Hk : 0 <= KeyLen h).
  { rewrite <- Hdec. apply de_nonneg. }
  assert (Hx : 0 <= ExtraLen h).
  { rewrite <- Hdec. apply de_nonneg. }
  unfold len in Hbody.
  unfold recv. unfold bind at 1.
  rewrite ReadFull_enough by (rewrite Hrd, length_app; lia).
  rewrite Hrd, <- Hlen, firstn_app_exact, skipn_app_exact.
  rewrite Hdec. cbv beta iota zeta.
  unfold bind at 1.
  rewrite ReadFull_enough
    by (cbn [set_rd rd]; rewrite length_app; lia).
  cbn [set_rd rd rsize wbuf sent werr wdown].
  replace (Z.to_nat (BodyLen h)) with (length body) by lia.
  rewrite firstn_app_exact, skipn_app_exact.
  change (oextras (with_hdr m h)) with (oextras m).
  change (iextras (with_hdr m h)) with (iextras m).
  rewrite Hox.
  assert (Hex :
    (if (ResvOrStatus h =? 0) && (ExtraLen h >? 0)
     then read_extras body []
     else (body, @nil extra, @None error)) = (body, [], None)).
  { destruct ((ResvOrStatus h =? 0) && (ExtraLen h >? 0)); reflexivity. }
  rewrite Hex.
  unfold bind, lift, Next, len.
  set (nk := if KeyLen h >? Z.of_nat (length body)
             then Z.of_nat (length body) else KeyLen h).
  assert (Hnk : 0 <= nk).
  { unfold nk. destruct (KeyLen h >? Z.of_nat (length body)); lia. }
  destruct (Z.ltb_spec nk 0); [lia|].
  set (vlen := BodyLen h - ExtraLen h - KeyLen h).
  set (buf := skipn (Z.to_nat nk) body).
  set (nv := if vlen >? Z.of_nat (length buf)
             then Z.of_nat (length buf) else vlen).
  assert (Hnv : 0 <= nv).
  { unfold nv. destruct (vlen >? Z.of_nat (length buf)); unfold vlen; lia. }
  destruct (Z.ltb_spec nv 0); [lia|].
  unfold ret. f_equal. f_equal. f_equal.
  assert (Hkn : firstn (Z.to_nat nk) body = firstn (Z.to_nat (KeyLen h)) body
                /\ buf = skipn (Z.to_nat (KeyLen h)) body).
  { unfold buf, nk. destruct (Z.gtb_spec (KeyLen h) (Z.of_nat (length body))).
    - rewrite Nat2Z.id. split.
      + rewrite firstn_all. symmetry. apply firstn_all2. lia.
      + rewrite skipn_all. symmetry. apply skipn_all2. lia.
    - split; reflexivity. }
  destruct Hkn as [Hkf Hks]. rewrite Hkf. f_equal.
  unfold response_value. fold vlen. rewrite <- Hks.
  unfold nv. destruct (Z.gtb_spec vlen (Z.of_nat (length buf))).
  - rewrite Nat2Z.id, firstn_all. symmetry. apply firstn_all2. lia.
  - reflexivity.
Qed.

(** An exchange on a working writer, answered by a response frame whose
    lengths fit. *)
Lemma sendRecv_run (m : msg) (rw : ReadWriter) (extraLen : Z) (b : bytes)
    (h : header) (body rest : bytes) :
  writable rw ->
  sizeOfExtras (iextras m) = Ret extraLen ->
  write_extras
    (encode_header
       (mkHeader magicSend (Op (hdr m)) (u16 (len (key m))) extraLen
          (DataType (hdr m)) (ResvOrStatus (hdr m))
          (u32 (u32 extraLen + u32 (u16 (len (key m)))
                + u32 (len (val m))))
          (Opaque (hdr m)) (CAS (hdr m))))
    (iextras m) = (b, None) ->
  oextras m = [] ->
  response rw h body rest ->
  ExtraLen h + KeyLen h <= BodyLen h ->
  sendRecv m rw
  = (Ret (mkMsg h (iextras m) [] (firstn (Z.to_nat (KeyLen h)) body)
                (response_value h body),
          newError (ResvOrStatus h)),
     flushed rw (b ++ key m ++ val m) rest).
Proof.
  intros Hw Hsz Hwe Hox Hresp Hfit.
  unfold sendRecv, bind.
  rewrite (send_run m rw extraLen b Hw Hsz Hwe).
  rewrite (recv_run _ (flushed rw (b ++ key m ++ val m) (rd rw)) h body rest);
    [reflexivity | exact Hresp | exact Hox | exact Hfit].
Qed.

(** A store on a working writer, answered by a response frame whose lengths
    fit. *)
Lemma bin_Populate_run (verb : Verb) (item : Item) (rw : ReadWriter)
    (h : header) (body rest : bytes) :
  writable rw ->
  response rw h body rest ->
  ExtraLen h + KeyLen h <= BodyLen h ->
  Populate verb item rw
  = (Ret (store_result verb (newError (ResvOrStatus h))),
     flushed rw (store_frame (verbToOp verb) item
                   (if Equal verb Cas then Casid item else 0)) rest).
Proof.
  intros Hw Hresp Hfit. unfold Populate. unfold bind.
  erewrite sendRecv_run;
    [ | exact Hw | reflexivity | reflexivity | reflexivity | exact Hresp
      | exact Hfit].
  cbv beta iota delta [key val hdr iextras Op CAS].
  unfold store_result, store_frame, request_header, ret.
  rewrite <- !app_assoc.
  destruct ((match newError (ResvOrStatus h) with
             | Some ErrCASConflict => true
             | _ => false
             end && Equal verb (B "add")) || Equal verb (B "replace"));
    reflexivity.
Qed.

(** A counter request on a working writer, answered by a response frame
    whose lengths fit. *)
Lemma bin_IncrDecr_run (verb : Verb) (k : bytes) (delta : Z)
    (rw : ReadWriter) (h : header) (body rest : bytes) :
  writable rw ->
  response rw h body rest ->
  ExtraLen h + KeyLen h <= BodyLen h ->
  IncrDecr verb k delta rw
  = (Ret (match newError (ResvOrStatus h) with
          | Some e => (0, Some e)
          | None => (fst (readInt (response_value h body)), None)
          end),
     flushed rw (counter_frame (verbToOp verb) k delta) rest).
Proof.
  intros Hw Hresp Hfit. unfold IncrDecr. unfold bind.
  erewrite sendRecv_run;
    [ | exact Hw | reflexivity | reflexivity | reflexivity | exact Hresp
      | exact Hfit].
  cbv beta iota delta [key val hdr iextras Op CAS].
  unfold counter_frame, request_header, ret.
  rewrite <- !app_assoc, app_nil_r.
  destruct (newError (ResvOrStatus h)); [reflexivity|].
  destruct (readInt (response_value h body)); reflexivity.
Qed.

(** C8. The error of a response status: 0x0000 is no error, 0x0001
    [ErrCacheMiss], 0x0002 [ErrCASConflict], 0x0003 [ErrValueTooLarge],
    0x0004 [ErrInvalidArgs], 0x0005 [ErrValueNotStored], 0x0006
    [ErrNonNumeric], 0x0020 [ErrAuthRequired], 0x0021 [ErrAuthContinue],
    0x0081 [ErrUnknownCommand], 0x0082 [ErrOutOfMemory], and every other
    status is [ErrUnknownError]. *)
Theorem bin_newError_table (status : Z) :
  newError 0x0000 = None /\
  newError 0x0001 = Some ErrCacheMiss /\
  newError 0x0002 = Some ErrCASConflict /\
  newError 0x0003 = Some ErrValueTooLarge /\
  newError 0x0004 = Some ErrInvalidArgs /\
  newError 0x0005 = Some ErrValueNotStored /\
  newError 0x0006 = Some ErrNonNumeric /\
  newError 0x0020 = Some ErrAuthRequired /\
  newError 0x0021 = Some ErrAuthContinue /\
  newError 0x0081 = Some ErrUnknownCommand /\
  newError 0x0082 = Some ErrOutOfMemory /\
  (~ In status [0x0000; 0x0001; 0x0002; 0x0003; 0x0004; 0x0005; 0x0006;
                0x0020; 0x0021; 0x0081; 0x0082] ->
   newError status = Some ErrUnknownError).
Proof.
  repeat (split; [reflexivity|]).
  intros Hother. unfold newError.
  repeat match goal with
         | |- context [?a =? ?b] =>
             destruct (Z.eqb_spec a b) as [-> | _];
             [exfalso; apply Hother; simpl; tauto|]
         end.
  reflexivity.
Qed.

Lemma bin_newError_table_witness : newError 0xffff = Some ErrUnknownError.
Proof.
  apply (bin_newError_table 0xffff).
  simpl. intros H.
  repeat (destruct H as [H | H]; [discriminate H|]). exact H.
Defined.

(** The statuses of a store that the driver reports as they are. *)
Lemma bin_Populate_conditional (item : Item) (rw : ReadWriter) (h : header)
    (body rest : bytes) :
  writable rw ->
  response rw h body rest ->
  ExtraLen h + KeyLen h <= BodyLen h ->
  (ResvOrStatus h = StatusKeyExists ->
   fst (Populate Add item rw) = Ret (Some ErrNotStored) /\
   fst (Populate Replace item rw) = Ret (Some ErrNotStored) /\
   fst (Populate Cas item rw) = Ret (Some ErrCASConflict)) /\
  (ResvOrStatus h = StatusOK ->
   fst (Populate Add item rw) = Ret None /\
   fst (Populate Cas item rw) = Ret None /\
   fst (Populate Set_ item rw) = Ret None).
Proof.
  intros Hw Hresp Hfit.
  split; intros Hst;
    rewrite !(bin_Populate_run _ item rw h body rest Hw Hresp Hfit), Hst;
    repeat split; reflexivity.
Qed.

(** C1, where the code departs from it.  A store with the verb "replace"
    that the server answers with status 0x0000 returns [ErrNotStored], not
    success: the condition [err == ErrCASConflict && verb == "add" ||
    verb == "replace"] holds for every "replace". *)
Theorem bin_Populate_replace_ok_not_stored (item : Item) (rw : ReadWriter)
    (h : header) (body rest : bytes) :
  writable rw ->
  response rw h body rest ->
  ExtraLen h + KeyLen h <= BodyLen h ->
  ResvOrStatus h = StatusOK ->
  Populate Replace item rw
  = (Ret (Some ErrNotStored), flushed rw (store_frame opReplace item 0) rest).
Proof.
  intros Hw Hresp Hfit Hst.
  rewrite (bin_Populate_run _ item rw h body rest Hw Hresp Hfit), Hst.
  reflexivity.
Qed.

Lemma bin_Populate_replace_ok_not_stored_witness :
  Populate Replace (mkItem (B "bar") (B "barval") 0 0 0)
           (rw_fresh (response_header opReplace StatusOK 0))
  = (Ret (Some ErrNotStored),
     mkRW [] 4096 []
          (store_frame opReplace (mkItem (B "bar") (B "barval") 0 0 0) 0)
          false false).
Proof.
  apply (bin_Populate_replace_ok_not_stored
           (mkItem (B "bar") (B "barval") 0 0 0)
           (rw_fresh (response_header opReplace StatusOK 0))
           (mkHeader magicRecv opReplace 0 0 0 StatusOK 0 0 0) [] []).
  - split; reflexivity.
  - exists (response_header opReplace StatusOK 0).
    repeat split; reflexivity.
  - vm_compute. discriminate.
  - reflexivity.
Defined.

(** C2, where the code departs from it.  A counter request that the server
    answers with status 0x0000 and a value that is not 8 bytes long returns
    the pair (0, nil): the error of [readInt] is dropped. *)
Theorem bin_IncrDecr_short_value (verb : Verb) (k : bytes) (delta : Z)
    (rw : ReadWriter) (h : header) (body rest : bytes) :
  writable rw ->
  response rw h body rest ->
  ExtraLen h + KeyLen h <= BodyLen h ->
  ResvOrStatus h = StatusOK ->
  len (response_value h body) <> 8 ->
  IncrDecr verb k delta rw
  = (Ret (0, None), flushed rw (counter_frame (verbToOp verb) k delta) rest)
  /\ exists e, readInt (response_value h body) = (0, Some e).
Proof.
  intros Hw Hresp Hfit Hst Hlen.
  rewrite (bin_IncrDecr_run verb k delta rw h body rest Hw Hresp Hfit), Hst.
  change (newError StatusOK) with (@None error). cbv iota.
  unfold readInt. apply Z.eqb_neq in Hlen. rewrite Hlen.
  split; [reflexivity | eexists; reflexivity].
Qed.

Lemma bin_IncrDecr_short_value_witness :
  IncrDecr Incr (B "num") 8
           (rw_fresh (response_header opIncrement StatusOK 4 ++ be 4 50))
  = (Ret (0, None),
     mkRW [] 4096 [] (counter_frame opIncrement (B "num") 8) false false).
Proof.
  apply (bin_IncrDecr_short_value Incr (B "num") 8
           (rw_fresh (response_header opIncrement StatusOK 4 ++ be 4 50))
           (mkHeader magicRecv opIncrement 0 0 0 StatusOK 4 0 0)
           (be 4 50) []).
  - split; reflexivity.
  - exists (response_header opIncrement StatusOK 4).
    repeat split; reflexivity.
  - vm_compute. discriminate.
  - reflexivity.
  - vm_compute. discriminate.
Defined.

(** [recv] leaves the writer alone, whatever comes of it. *)
Lemma recv_sent (m : msg) (rw : ReadWriter) :
  sent (snd (recv m rw)) = sent rw.
Proof.
  unfold recv, bind.
  destruct (ReadFull_frame 24 rw) as ([hb [e|]] & r & ->); [reflexivity|].
  cbv zeta.
  destruct (ReadFull_frame (Z.to_nat (BodyLen (decode_header hb)))
              (set_rd rw r)) as ([bd [e|]] & r' & ->); [reflexivity|].
  match goal with
  | |- context [if ?c then ?a else ?b] =>
      destruct (if c then a else b) as [[buf oex] [e|]]; [reflexivity|]
  end.
  unfold lift.
  destruct (Next buf _) as [[k buf']| |]; try reflexivity.
  destruct (Next buf' _) as [[v buf'']| |]; reflexivity.
Qed.

(** Whatever the peer answers, an exchange on a working writer has put the
    frame on the wire. *)
Lemma sendRecv_sent (m : msg) (rw : ReadWriter) (extraLen : Z) (b : bytes) :
  writable rw ->
  sizeOfExtras (iextras m) = Ret extraLen ->
  write_extras
    (encode_header
       (mkHeader magicSend (Op (hdr m)) (u16 (len (key m))) extraLen
          (DataType (hdr m)) (ResvOrStatus (hdr m))
          (u32 (u32 extraLen + u32 (u16 (len (key m)))
                + u32 (len (val m))))
          (Opaque (hdr m)) (CAS (hdr m))))
    (iextras m) = (b, None) ->
  sent (snd (sendRecv m rw)) = sent rw ++ wbuf rw ++ b ++ key m ++ val m.
Proof.
  intros Hw Hsz Hwe. unfold sendRecv, bind.
  rewrite (send_run m rw extraLen b Hw Hsz Hwe).
  rewrite recv_sent. reflexivity.
Qed.

Lemma verbToOp_unknown (verb : Verb) :
  ~ known_verb verb ->
  verbToOp verb = opVersion /\
  Equal verb Cas = false /\
  Equal verb (B "add") = false /\ Equal verb (B "replace") = false.
Proof.
  intros Hv. unfold known_verb in Hv. simpl in Hv.
  assert (H : forall v, In v [Set_; Add; Replace; Cas; Incr; Decr] ->
                        Equal verb v = false).
  { intros v Hin. apply Equal_neq. intros ->. apply Hv. simpl in Hin.
    tauto. }
  unfold verbToOp.
  change (B "incr") with Incr. change (B "decr") with Decr.
  change (B "cas") with Cas. change (B "set") with Set_.
  change (B "add") with Add. change (B "replace") with Replace.
  rewrite !H by (simpl; tauto).
  repeat split; reflexivity.
Qed.

(** C9. A verb that is none of set, add, replace, cas, incr, decr is given
    the opcode VERSION (0x0b).  [Populate] and [IncrDecr] do not turn such a
    verb down: on a working writer they put on the wire their usual frame,
    whose opcode byte is 0x0b, and a store then returns what the status of
    the response says. *)
Theorem bin_unknown_verb_sends_version (verb : Verb) (item : Item)
    (k : bytes) (delta : Z) (rw : ReadWriter) :
  ~ known_verb verb ->
  writable rw ->
  verbToOp verb = opVersion /\
  sent (snd (Populate verb item rw))
  = sent rw ++ wbuf rw ++ store_frame opVersion item 0 /\
  sent (snd (IncrDecr verb k delta rw))
  = sent rw ++ wbuf rw ++ counter_frame opVersion k delta /\
  nth 1 (store_frame opVersion item 0) zero = byte_of 0x0b /\
  nth 1 (counter_frame opVersion k delta) zero = byte_of 0x0b /\
  (forall h body rest,
     response rw h body rest ->
     ExtraLen h + KeyLen h <= BodyLen h ->
     Populate verb item rw
     = (Ret (newError (ResvOrStatus h)),
        flushed rw (store_frame opVersion item 0) rest)).
Proof.
  intros Hv Hw.
  destruct (verbToOp_unknown verb Hv) as (Hop & Hcas & Hadd & Hrep).
  split; [exact Hop|].
  split.
  { unfold Populate. rewrite Hop, Hcas. unfold bind at 1.
    match goal with
    | |- context [sendRecv ?m rw] =>
        pose proof (sendRecv_sent m rw 8 _ Hw eq_refl eq_refl) as Hs;
        destruct (sendRecv m rw) as [[[m' err]| |] rw']
    end; cbn [snd] in Hs |- *;
      try (destruct (_ || _)); cbn [snd ret]; rewrite Hs;
      unfold store_frame, request_header; cbn [key val];
      now rewrite <- !app_assoc. }
  split.
  { unfold IncrDecr. rewrite Hop. unfold bind at 1.
    match goal with
    | |- context [sendRecv ?m rw] =>
        pose proof (sendRecv_sent m rw 20 _ Hw eq_refl eq_refl) as Hs;
        destruct (sendRecv m rw) as [[[m' [e|]]| |] rw']
    end; cbn [snd] in Hs |- *;
      try (destruct (readInt _)); cbn [snd ret]; rewrite Hs;
      unfold counter_frame, request_header; cbn [key val];
      now rewrite <- !app_assoc, ?app_nil_r. }
  split; [reflexivity|].
  split; [reflexivity|].
  intros h body rest Hresp Hfit.
  rewrite (bin_Populate_run verb item rw h body rest Hw Hresp Hfit).
  rewrite Hop, Hcas. unfold store_result. rewrite Hadd, Hrep.
  rewrite andb_false_r. reflexivity.
Qed.

Lemma bin_unknown_verb_sends_version_witness :
  Populate (B "append") (mkItem (B "foo") (B "x") 0 0 0)
           (rw_fresh (response_header opVersion StatusOK 5 ++ B "1.6.9"))
  = (Ret None,
     mkRW [] 4096 []
          (store_frame opVersion (mkItem (B "foo") (B "x") 0 0 0) 0)
          false false).
Proof.
  destruct (bin_unknown_verb_sends_version (B "append")
              (mkItem (B "foo") (B "x") 0 0 0) (B "foo") 1
              (rw_fresh (response_header opVersion StatusOK 5 ++ B "1.6.9")))
    as (_ & _ & _ & _ & _ & Hrun).
  - unfold known_verb. simpl. intros H.
    repeat (destruct H as [H | H]; [discriminate H|]). exact H.
  - split; reflexivity.
  - rewrite (Hrun (mkHeader magicRecv opVersion 0 0 0 StatusOK 5 0 0)
                  (B "1.6.9") []).
    + reflexivity.
    + exists (response_header opVersion StatusOK 5).
      repeat split; reflexivity.
    + vm_compute. discriminate.
Defined.

Lemma newError_not_malformed (status : Z) : not_malformed (newError status).
Proof.
  unfold newError, not_malformed.
  repeat match goal with
         | |- context [?a =? ?b] => destruct (a =? b); [discriminate|]
         end.
  discriminate.
Qed.

Lemma write_extras_error (b b' : bytes) (extras : list extra) (e : error) :
  write_extras b extras = (b', Some e) -> exists f a, e = Errorf f a.
Proof.
  revert b. induction extras as [|x extras IH]; intros b; simpl;
    [discriminate|].
  destruct x; simpl; try apply IH.
  intros [= _ <-]. eauto.
Qed.

Lemma read_extras_error (buf buf' : bytes) (extras extras' : list extra)
    (e : error) :
  read_extras buf extras = (buf', extras', Some e) ->
  read_error e \/ exists f a, e = Errorf f a.
Proof.
  revert buf buf' extras'.
  induction extras as [|x extras IH]; intros buf buf' extras'; simpl;
    [discriminate|].
  destruct (binary_Read buf x) as [[buf1 x'] [e1|]] eqn:E.
  - intros [= _ _ <-]. unfold binary_Read, read_error in *.
    destruct x; try (injection E as _ _ <-; eauto);
      (destruct buf; [injection E as _ _ <-; auto|];
       destruct (_ <=? _)%nat; [discriminate | injection E as _ _ <-; auto]).
  - destruct (read_extras buf1 extras) as [[buf2 extras2] err] eqn:E2.
    intros [= _ _ ->]. eapply IH. exact E2.
Qed.

Lemma send_not_malformed (m : msg) :
  returns_in (fun x => not_malformed (snd x)) (send m).
Proof.
  unfold send. eapply returns_bind; [apply returns_any|].
  intros extraLen _. cbv zeta.
  destruct (write_extras _ _) as [b [e|]] eqn:E.
  - apply returns_ret. cbn [snd].
    apply write_extras_error in E as (f & a & ->). discriminate.
  - eapply returns_bind; [apply returns_Write|].
    intros a [-> | ->]; [|apply returns_ret; discriminate].
    eapply returns_bind; [apply returns_Flush|].
    intros a [-> | ->]; apply returns_ret; discriminate.
Qed.

Lemma recv_not_malformed (m : msg) :
  returns_in (fun x => not_malformed (snd x)) (recv m).
Proof.
  assert (Hread : forall e, read_error e -> not_malformed (Some e)).
  { intros e [-> | [-> | ->]]; discriminate. }
  unfold recv. eapply returns_bind; [apply (returns_ReadFull 24)|].
  intros [hb [e|]] He; cbn [snd] in He.
  { apply returns_ret. apply Hread, He. reflexivity. }
  cbv zeta. eapply returns_bind; [apply returns_ReadFull|].
  intros [bd [e|]] He'; cbn [snd] in He'.
  { apply returns_ret. apply Hread, He'. reflexivity. }
  match goal with
  | |- context [if ?c then ?a else ?b] =>
      destruct (if c then a else b) as [[buf oex] [e|]] eqn:E
  end.
  - apply returns_ret. cbn [snd].
    destruct ((_ =? _) && (_ >? _)); [|discriminate].
    apply read_extras_error in E as [Hr | (f & a & ->)];
      [now apply Hread | discriminate].
  - eapply returns_bind; [apply returns_any|]. intros [k buf1] _.
    eapply returns_bind; [apply returns_any|]. intros [v buf2] _.
    apply returns_ret. apply newError_not_malformed.
Qed.

(** No store through the binary driver is turned down for its key. *)
Lemma bin_Populate_not_malformed (verb : Verb) (item : Item) :
  returns_in not_malformed (Populate verb item).
Proof.
  unfold Populate.
  eapply returns_bind with (P := fun x => not_malformed (snd x)).
  - unfold sendRecv. eapply returns_bind; [apply send_not_malformed|].
    intros [m' [e|]] He; [now apply returns_ret | apply recv_not_malformed].
  - intros [m' err] He. cbn [snd] in He.
    destruct (_ || _); apply returns_ret; [discriminate | exact He].
Qed.

End BinProps.

(** ** Both drivers: the empty key *)

Module DriverProps.
Import types bufio conn ConnProps.

(** C3, as the claim has it, fails: the empty key passes [LegalKey] under
    both drivers, and a store of it through the text driver goes through. *)
Lemma empty_key_is_legal :
  text.LegalKey [] = true /\ bin.LegalKey [] = true /\
  text.Populate Set_ (mkItem [] (B "x") 0 0 0)
                (rw_fresh (B "STORED" ++ crlf))
  = (Ret None,
     mkRW [] 4096 [] (B "set  0 0 1" ++ crlf ++ B "x" ++ crlf) false false).
Proof. repeat split; reflexivity. Qed.

(** C3, as the code has it.  For the empty key [LegalKey] holds under both
    drivers, and no store of an item with the empty key returns
    [ErrMalformedKey], through the text driver or through the binary one. *)
Theorem empty_key_not_rejected (verb : Verb) (item : Item) :
  Key item = [] ->
  text.LegalKey (Key item) = true /\
  bin.LegalKey (Key item) = true /\
  returns_in not_malformed (text.Populate verb item) /\
  returns_in not_malformed (bin.Populate verb item).
Proof.
  intros Hk. split; [rewrite Hk; reflexivity|].
  split; [reflexivity|].
  split; [now apply TextProps.text_Populate_empty_key|].
  apply BinProps.bin_Populate_not_malformed.
Qed.

Lemma empty_key_not_rejected_witness :
  text.LegalKey [] = true /\ bin.LegalKey [] = true.
Proof.
  destruct (empty_key_not_rejected Set_ (mkItem [] (B "x") 0 0 0) eq_refl)
    as (Ht & Hb & _).
  split; [exact Ht | exact Hb].
Defined.

End DriverProps.

(** * More of the drivers *)

(** ** The binary codec *)

Module BinCodec.
Import types bufio conn bin ConnProps BinProps.

Lemma code_byte_of (z : Z) : code (byte_of z) = z mod 256.
Proof.
  unfold code, byte_of.
  change 255 with (Z.ones 8). rewrite Z.land_ones by lia.
  change (2 ^ 8) with 256.
  pose proof (Z.mod_pos_bound z 256 ltac:(lia)) as Hb.
  rewrite N_ascii_embedding by lia.
  apply Z2N.id. lia.
Qed.

Lemma code_range (b : ascii) : 0 <= code b < 256.
Proof.
  unfold code. pose proof (N_ascii_bounded b). lia.
Qed.

Lemma lor_shiftl (a b k : Z) :
  0 <= k -> 0 <= b < 2 ^ k -> Z.lor (Z.shiftl a k) b = a * 2 ^ k + b.
Proof.
  intros Hk Hb.
  rewrite Z.shiftl_mul_pow2 by exact Hk.
  assert (Hland : Z.land (a * 2 ^ k) b = 0).
  { apply Z.bits_inj'; intros n Hn. rewrite Z.land_spec, Z.bits_0.
    destruct (Z.ltb_spec n k).
    - rewrite Z.mul_pow2_bits_low by lia. reflexivity.
    - destruct (Z.eq_dec b 0) as [-> | Hnz];
        [rewrite Z.bits_0; apply andb_false_r|].
      rewrite (Z.bits_above_log2 b n); [apply andb_false_r | lia | ].
      apply Z.lt_le_trans with k; [apply Z.log2_lt_pow2; lia | lia]. }
  rewrite <- Z.lxor_lor, <- Z.add_nocarry_lxor by exact Hland. reflexivity.
Qed.

Lemma de_fold (bs : bytes) (acc : Z) :
  fold_left (fun acc b => Z.lor (Z.shiftl acc 8) (code b)) bs acc
  = acc * 2 ^ (8 * Z.of_nat (length bs)) + de bs.
Proof.
  unfold de. revert acc.
  induction bs as [|b bs IH]; intros acc.
  - simpl. lia.
  - cbn [fold_left]. rewrite (IH (Z.lor _ _)), (IH (Z.lor (Z.shiftl 0 8) _)).
    rewrite !lor_shiftl by (try lia; apply code_range).
    replace (8 * Z.of_nat (length (b :: bs)))
      with (8 + 8 * Z.of_nat (length bs)) by (cbn [length]; lia).
    rewrite Z.pow_add_r by lia. ring.
Qed.

Lemma length_be (n : nat) (z : Z) : length (be n z) = n.
Proof. induction n as [|n IH]; simpl; [reflexivity | now rewrite IH]. Qed.

(** Decoding what was encoded: the low [n] bytes of the number. *)
Lemma de_be (n : nat) (z : Z) : de (be n z) = z mod 2 ^ (8 * Z.of_nat n).
Proof.
  induction n as [|n IH].
  - simpl. now rewrite Z.mod_1_r.
  - cbn [be]. unfold de. cbn [fold_left]. rewrite de_fold, IH, length_be.
    rewrite lor_shiftl by (try lia; apply code_range).
    rewrite code_byte_of, Z.shiftr_div_pow2 by lia.
    replace (8 * Z.of_nat (S n)) with (8 * Z.of_nat n + 8) by lia.
    rewrite Z.pow_add_r by lia. change (2 ^ 8) with 256.
    rewrite Z.rem_mul_r by lia. cbn [Z.mul]. lia.
Qed.

(** X1. The header codec: a header whose fields are within their types takes
    24 bytes on the wire, and decoding those bytes gives the header back. *)
Theorem header_round_trip (h : header) :
  wf_header h ->
  length (encode_header h) = 24%nat /\
  decode_header (encode_header h) = h.
Proof.
  intros (Hm & Ho & Hk & He & Hd & Hs & Hb & Hq & Hc).
  split; [reflexivity|].
  unfold decode_header.
  change (sub (encode_header h) 0 1) with (be 1 (Magic h)).
  change (sub (encode_header h) 1 1) with (be 1 (Op h)).
  change (sub (encode_header h) 2 2) with (be 2 (KeyLen h)).
  change (sub (encode_header h) 4 1) with (be 1 (ExtraLen h)).
  change (sub (encode_header h) 5 1) with (be 1 (DataType h)).
  change (sub (encode_header h) 6 2) with (be 2 (ResvOrStatus h)).
  change (sub (encode_header h) 8 4) with (be 4 (BodyLen h)).
  change (sub (encode_header h) 12 4) with (be 4 (Opaque h)).
  change (sub (encode_header h) 16 8) with (be 8 (CAS h)).
  rewrite !de_be.
  change (8 * Z.of_nat 1) with 8. change (8 * Z.of_nat 2) with 16.
  change (8 * Z.of_nat 4) with 32. change (8 * Z.of_nat 8) with 64.
  rewrite !Z.mod_small by assumption.
  destruct h; reflexivity.
Qed.

Lemma header_round_trip_witness :
  decode_header (encode_header (mkHeader magicRecv opGet 0 4 0 StatusOK 10 7
                                         (2 ^ 64 - 1)))
  = mkHeader magicRecv opGet 0 4 0 StatusOK 10 7 (2 ^ 64 - 1).
Proof.
  apply (header_round_trip
           (mkHeader magicRecv opGet 0 4 0 StatusOK 10 7 (2 ^ 64 - 1))).
  unfold wf_header.
  repeat split; try reflexivity; vm_compute; discriminate.
Defined.

Lemma lor_shiftl_r (x y k : Z) :
  0 <= k -> 0 <= x < 2 ^ k -> Z.lor x (Z.shiftl y k) = x + y * 2 ^ k.
Proof.
  intros Hk Hx. rewrite Z.lor_comm, lor_shiftl by assumption. lia.
Qed.

(** [readInt] on 8 bytes is the big-endian decoding. *)
Lemma readInt_de (b : bytes) :
  length b = 8%nat -> readInt b = (de b, None).
Proof.
  intros Hlen.
  destruct b as [|b0 [|b1 [|b2 [|b3 [|b4 [|b5 [|b6 [|b7 [|]]]]]]]]];
    try discriminate Hlen.
  unfold readInt. change (len _ =? 8) with true. cbv iota.
  f_equal. unfold byte_at, de. cbn [nth fold_left].
  pose proof (code_range b0). pose proof (code_range b1).
  pose proof (code_range b2). pose proof (code_range b3).
  pose proof (code_range b4). pose proof (code_range b5).
  pose proof (code_range b6). pose proof (code_range b7).
  rewrite (lor_shiftl_r (code b7)) by lia.
  rewrite (lor_shiftl_r _ (code b5)) by lia.
  rewrite (lor_shiftl_r _ (code b4)) by lia.
  rewrite (lor_shiftl_r _ (code b3)) by lia.
  rewrite (lor_shiftl_r _ (code b2)) by lia.
  rewrite (lor_shiftl_r _ (code b1)) by lia.
  rewrite (lor_shiftl_r _ (code b0)) by lia.
  rewrite (lor_shiftl 0) by lia.
  rewrite (lor_shiftl _ (code b1)) by lia.
  rewrite (lor_shiftl _ (code b2)) by lia.
  rewrite (lor_shiftl _ (code b3)) by lia.
  rewrite (lor_shiftl _ (code b4)) by lia.
  rewrite (lor_shiftl _ (code b5)) by lia.
  rewrite (lor_shiftl _ (code b6)) by lia.
  rewrite (lor_shiftl _ (code b7)) by lia.
  lia.
Qed.

(** X2. [readInt] reads back what the big-endian encoding of a 64-bit number
    wrote, and reports an error, with the number 0, for a string that is not
    8 bytes long. *)
Theorem readInt_round_trip (v : Z) (b : bytes) :
  (0 <= v < 2 ^ 64 -> readInt (be 8 v) = (v, None)) /\
  (length b <> 8%nat ->
   readInt b = (0, Some (Errorf "memcache: error parsing int %s" [b]))).
Proof.
  split.
  - intros Hv. rewrite readInt_de by apply length_be.
    rewrite de_be. change (8 * Z.of_nat 8) with 64.
    now rewrite Z.mod_small.
  - intros Hlen. unfold readInt, len.
    destruct (Z.eqb_spec (Z.of_nat (length b)) 8); [lia | reflexivity].
Qed.

Lemma readInt_round_trip_witness :
  readInt (be 8 50) = (50, None) /\
  readInt (be 4 50)
  = (0, Some (Errorf "memcache: error parsing int %s" [be 4 50])).
Proof.
  destruct (readInt_round_trip 50 (be 4 50)) as [Hok Hbad].
  split; [apply Hok; lia | apply Hbad; discriminate].
Defined.

Lemma sizeOfExtras_loop_typed (extras : list extra) (l : Z) :
  typed_extras extras -> 0 <= l < 256 ->
  sizeOfExtras_loop extras l = Ret ((l + extras_size extras) mod 256).
Proof.
  revert l. induction extras as [|e extras IH]; intros l Ht Hl.
  - cbn. rewrite Z.add_0_r, Z.mod_small by exact Hl. reflexivity.
  - inversion Ht as [|? ? He Ht']; subst.
    assert (Hstep : forall w, 0 <= w ->
      sizeOfExtras_loop extras (u8 (l + w))
      = Ret ((l + (w + extras_size extras)) mod 256)).
    { intros w Hw. unfold u8. change (2 ^ 8) with 256.
      rewrite IH by (try assumption; apply Z.mod_pos_bound; lia).
      rewrite Zplus_mod_idemp_l. f_equal. f_equal. lia. }
    destruct e; cbn [sizeOfExtras_loop extras_size fold_right width];
      try (apply Hstep; lia).
    contradiction.
Qed.

Lemma sizeOfExtras_loop_other (extras : list extra) (l : Z) :
  In XOther extras -> exists msg, sizeOfExtras_loop extras l = Panic msg.
Proof.
  revert l. induction extras as [|e extras IH]; intros l Hin; [destruct Hin|].
  destruct e; cbn [sizeOfExtras_loop]; try (apply IH;
    destruct Hin as [Hin | Hin]; [discriminate Hin | exact Hin]).
  eauto.
Qed.

(** X3. [sizeOfExtras] is the number of bytes of the extras, in a [uint8]
    (so modulo 256), when they are of the four unsigned types, and it panics
    when one of them is of another type. *)
Theorem sizeOfExtras_size (extras : list extra) :
  (typed_extras extras ->
   sizeOfExtras extras = Ret (extras_size extras mod 256)) /\
  (In XOther extras -> exists msg, sizeOfExtras extras = Panic msg).
Proof.
  split.
  - intros Ht. unfold sizeOfExtras.
    rewrite sizeOfExtras_loop_typed by (try assumption; lia). reflexivity.
  - apply sizeOfExtras_loop_other.
Qed.

Lemma sizeOfExtras_size_witness :
  sizeOfExtras [U64 8; U64 0; U32 0xffffffff] = Ret 20 /\
  exists msg, sizeOfExtras [U32 1; XOther] = Panic msg.
Proof.
  split.
  - apply (proj1 (sizeOfExtras_size [U64 8; U64 0; U32 0xffffffff])).
    repeat constructor; discriminate.
  - apply (proj2 (sizeOfExtras_size [U32 1; XOther])).
    right; left; reflexivity.
Defined.

Lemma write_extras_typed (b : bytes) (extras : list extra) :
  typed_extras extras ->
  write_extras b extras = (b ++ extras_bytes extras, None).
Proof.
  revert b. induction extras as [|e extras IH]; intros b Ht.
  - cbn. now rewrite app_nil_r.
  - inversion Ht as [|? ? He Ht']; subst.
    destruct e; cbn [write_extras binary_Write extras_bytes flat_map width
                       extra_value];
      try (rewrite IH by assumption; now rewrite <- app_assoc).
    contradiction.
Qed.

Lemma length_extras_bytes (extras : list extra) :
  Z.of_nat (length (extras_bytes extras)) = extras_size extras.
Proof.
  induction extras as [|e extras IH]; [reflexivity|].
  cbn [extras_bytes flat_map extras_size fold_right].
  rewrite length_app, length_be, Nat2Z.inj_add. fold (extras_bytes extras).
  rewrite IH. reflexivity.
Qed.

Lemma extras_size_nonneg (extras : list extra) : 0 <= extras_size extras.
Proof.
  induction extras as [|e extras IH]; cbn [extras_size fold_right]; [lia|].
  fold (extras_size extras). lia.
Qed.

(** X4. The frame [send] writes: when the extras are of the known types and
    take less than 256 bytes, the key less than 65536 bytes and the body
    less than 4 GiB, the header sent has the magic 0x80, as [ExtraLen],
    [KeyLen] and [BodyLen] the lengths of the extras, of the key and of the
    whole body, and the opcode, data type, status, opaque and CAS the
    message had; the message keeps that header, and the frame is its 24
    bytes followed by [BodyLen] bytes: extras, key, value. *)
Theorem send_frame (m : msg) (rw : ReadWriter) :
  writable rw ->
  typed_extras (iextras m) ->
  extras_size (iextras m) < 2 ^ 8 ->
  len (key m) < 2 ^ 16 ->
  extras_size (iextras m) + len (key m) + len (val m) < 2 ^ 32 ->
  let h := mkHeader magicSend (Op (hdr m)) (len (key m))
             (extras_size (iextras m)) (DataType (hdr m))
             (ResvOrStatus (hdr m))
             (extras_size (iextras m) + len (key m) + len (val m))
             (Opaque (hdr m)) (CAS (hdr m)) in
  send m rw
  = (Ret (with_hdr m h, None),
     flushed rw (encode_header h ++ extras_bytes (iextras m)
                 ++ key m ++ val m) (rd rw)) /\
  len (encode_header h ++ extras_bytes (iextras m) ++ key m ++ val m)
  = 24 + BodyLen h.
Proof.
  intros Hw Ht Hx Hk Hb h.
  pose proof (extras_size_nonneg (iextras m)) as Hx0.
  assert (Hlk : 0 <= len (key m)) by (unfold len; lia).
  assert (Hlv : 0 <= len (val m)) by (unfold len; lia).
  assert (Hh : mkHeader magicSend (Op (hdr m)) (u16 (len (key m)))
                 (extras_size (iextras m))
                 (DataType (hdr m)) (ResvOrStatus (hdr m))
                 (u32 (u32 (extras_size (iextras m))
                       + u32 (u16 (len (key m))) + u32 (len (val m))))
                 (Opaque (hdr m)) (CAS (hdr m)) = h).
  { unfold h, u16, u32.
    rewrite !(Z.mod_small (len (key m))) by lia.
    rewrite !(Z.mod_small (extras_size (iextras m))) by lia.
    rewrite !(Z.mod_small (len (val m))) by lia.
    rewrite Z.mod_small by lia. reflexivity. }
  split.
  - rewrite (send_run m rw (extras_size (iextras m))
               (encode_header h ++ extras_bytes (iextras m)) Hw).
    + rewrite Hh, <- app_assoc. reflexivity.
    + unfold sizeOfExtras.
      rewrite sizeOfExtras_loop_typed by (try assumption; lia).
      change 256 with (2 ^ 8). rewrite Z.add_0_l.
      now rewrite Z.mod_small by lia.
    + rewrite Hh. apply write_extras_typed. exact Ht.
  - unfold len. rewrite !length_app, !Nat2Z.inj_add.
    rewrite length_extras_bytes.
    change (length (encode_header h)) with 24%nat.
    unfold h, len. cbn [BodyLen]. lia.
Qed.

Lemma send_frame_witness :
  send (mkMsg (mkHeader 0 opSet 0 0 0 0 0 0 9) [U32 123; U32 0] []
              (B "foo") (B "fooval")) (rw_fresh [])
  = (Ret (mkMsg (mkHeader magicSend opSet 3 8 0 0 17 0 9)
                [U32 123; U32 0] [] (B "foo") (B "fooval"), None),
     flushed (rw_fresh [])
       (encode_header (mkHeader magicSend opSet 3 8 0 0 17 0 9)
        ++ be 4 123 ++ be 4 0 ++ B "foo" ++ B "fooval") []).
Proof.
  apply (send_frame (mkMsg (mkHeader 0 opSet 0 0 0 0 0 0 9)
                           [U32 123; U32 0] [] (B "foo") (B "fooval"))
           (rw_fresh [])).
  - split; reflexivity.
  - repeat constructor; discriminate.
  - reflexivity.
  - reflexivity.
  - reflexivity.
Defined.

End BinCodec.

(** ** The Go library *)

Module LibProps.
Import conn.

Lemma HasPrefix_spec (s p : bytes) :
  HasPrefix s p = true <-> exists post, s = p ++ post.
Proof.
  revert s. induction p as [|c p IH]; intros s.
  - destruct s; simpl; split; eauto.
  - destruct s as [|x s]; simpl.
    + split; [discriminate | intros [post H]; discriminate H].
    + rewrite andb_true_iff, Ascii.eqb_eq, IH. split.
      * intros [-> [post ->]]. eauto.
      * intros [post H]. injection H as -> ->. eauto.
Qed.

Lemma Index_ge (s sub : bytes) : -1 <= Index s sub.
Proof.
  induction s as [|x s IH]; cbn [Index].
  - destruct (HasPrefix [] sub); lia.
  - destruct (HasPrefix (x :: s) sub); [lia|].
    destruct (Z.ltb_spec (Index s sub) 0); lia.
Qed.

(** [strings.Index] is -1 exactly when the substring does not occur. *)
Lemma Index_contains (s sub : bytes) :
  Index s sub <> -1 <-> contains s sub.
Proof.
  induction s as [|x s IH].
  - cbn [Index]. destruct (HasPrefix [] sub) eqn:E.
    + split; [intros _ | lia].
      apply HasPrefix_spec in E as [post E]. exists [], post. exact E.
    + split; [lia|]. intros (pre & post & H).
      destruct pre; [|discriminate H]. simpl in H.
      assert (HasPrefix [] sub = true)
        by (apply HasPrefix_spec; eauto).
      congruence.
  - cbn [Index]. destruct (HasPrefix (x :: s) sub) eqn:E.
    + split; [intros _ | lia].
      apply HasPrefix_spec in E as [post E]. exists [], post. exact E.
    + pose proof (Index_ge s sub) as Hge.
      destruct (Z.ltb_spec (Index s sub) 0) as [Hlt | Hnn].
      * split; [lia|]. intros (pre & post & H).
        destruct pre as [|y pre].
        -- assert (HasPrefix (x :: s) sub = true)
             by (apply HasPrefix_spec; eauto).
           congruence.
        -- injection H as -> H.
           assert (contains s sub) as Hc by (exists pre, post; exact H).
           apply IH in Hc. lia.
      * split; [intros _ | lia].
        assert (Index s sub <> -1) as Hi by lia.
        apply IH in Hi as (pre & post & ->).
        exists (x :: pre), post. reflexivity.
Qed.

End LibProps.

(** ** The other commands of the binary driver *)

Module BinExtra.
Import types bufio conn bin ConnProps BinProps BinCodec.
Local Open Scope go_scope.

Lemma Next_nonneg (buf : bytes) (n : Z) :
  0 <= n ->
  Next buf n = Ret (firstn (Z.to_nat n) buf, skipn (Z.to_nat n) buf).
Proof.
  intros Hn. unfold Next, len.
  destruct (Z.gtb_spec n (Z.of_nat (length buf))) as [Hgt | Hle].
  - destruct (Z.ltb_spec (Z.of_nat (length buf)) 0); [lia|].
    rewrite Nat2Z.id, firstn_all, skipn_all.
    rewrite firstn_all2, skipn_all2 by lia. reflexivity.
  - destruct (Z.ltb_spec n 0); [lia | reflexivity].
Qed.

Lemma Next_neg (buf : bytes) (n : Z) :
  n < 0 -> Next buf n = Panic "slice bounds out of range".
Proof.
  intros Hn. unfold Next, len.
  destruct (Z.gtb_spec n (Z.of_nat (length buf))); [lia|].
  destruct (Z.ltb_spec n 0); [reflexivity | lia].
Qed.

(** [recv] of a whole response frame, up to the point where the extras are
    dealt with: what is left is to cut the key and the value. *)
Lemma recv_frame (m : msg) (rw : ReadWriter) (h : header)
    (body rest buf : bytes) (oex : list extra) :
  response rw h body rest ->
  (if (ResvOrStatus h =? 0) && (ExtraLen h >? 0)
   then read_extras body (oextras m)
   else (body, oextras m, None)) = (buf, oex, None) ->
  recv m rw
  = bind (lift (Next buf (KeyLen h))) (fun x =>
      let (k, buf1) := x in
      bind (lift (Next buf1 (BodyLen h - ExtraLen h - KeyLen h))) (fun y =>
        let (v, _) := y in
        ret (mkMsg h (iextras m) oex k v, newError (ResvOrStatus h))))
      (set_rd rw rest).
Proof.
  intros (hb & Hlen & Hdec & Hrd & Hbody) Hex.
  unfold len in Hbody.
  unfold recv. unfold bind at 1.
  rewrite ReadFull_enough by (rewrite Hrd, length_app; lia).
  rewrite Hrd, <- Hlen, firstn_app_exact, skipn_app_exact.
  rewrite Hdec. cbv beta iota zeta.
  unfold bind at 1.
  rewrite ReadFull_enough
    by (cbn [set_rd rd]; rewrite length_app; lia).
  cbn [set_rd rd rsize wbuf sent werr wdown].
  replace (Z.to_nat (BodyLen h)) with (length body) by lia.
  rewrite firstn_app_exact, skipn_app_exact.
  change (oextras (with_hdr m h)) with (oextras m).
  change (iextras (with_hdr m h)) with (iextras m).
  rewrite Hex. reflexivity.
Qed.

(** [recv] of a whole response frame whose extras cannot be read. *)
Lemma recv_frame_error (m : msg) (rw : ReadWriter) (h : header)
    (body rest buf : bytes) (oex : list extra) (e : error) :
  response rw h body rest ->
  (if (ResvOrStatus h =? 0) && (ExtraLen h >? 0)
   then read_extras body (oextras m)
   else (body, oextras m, None)) = (buf, oex, Some e) ->
  recv m rw
  = (Ret (mkMsg h (iextras m) oex (key m) (val m), Some e), set_rd rw rest).
Proof.
  intros (hb & Hlen & Hdec & Hrd & Hbody) Hex.
  unfold len in Hbody.
  unfold recv. unfold bind at 1.
  rewrite ReadFull_enough by (rewrite Hrd, length_app; lia).
  rewrite Hrd, <- Hlen, firstn_app_exact, skipn_app_exact.
  rewrite Hdec. cbv beta iota zeta.
  unfold bind at 1.
  rewrite ReadFull_enough
    by (cbn [set_rd rd]; rewrite length_app; lia).
  cbn [set_rd rd rsize wbuf sent werr wdown].
  replace (Z.to_nat (BodyLen h)) with (length body) by lia.
  rewrite firstn_app_exact, skipn_app_exact.
  change (oextras (with_hdr m h)) with (oextras m).
  change (iextras (with_hdr m h)) with (iextras m).
  rewrite Hex. reflexivity.
Qed.

Lemma width_typed (e : extra) : e <> XOther -> (1 <= width e)%nat.
Proof. destruct e; cbn; try lia. intros H. now contradiction H. Qed.

(** The loop of [recv] over extras of the known types: it reads them all
    when the buffer holds their bytes. *)
Lemma read_extras_enough (buf : bytes) (extras : list extra) :
  typed_extras extras ->
  extras_size extras <= len buf ->
  exists buf' oex, read_extras buf extras = (buf', oex, None).
Proof.
  revert buf. induction extras as [|e extras IH]; intros buf Ht Hsz.
  - cbn. eauto.
  - inversion Ht as [|? ? He Ht']; subst.
    cbn [extras_size fold_right] in Hsz. fold (extras_size extras) in Hsz.
    pose proof (width_typed e He) as Hw.
    pose proof (extras_size_nonneg extras) as Hnn.
    unfold len in *.
    assert (Hread : binary_Read buf e
                    = (skipn (width e) buf,
                       put e (de (firstn (width e) buf)), None)).
    { unfold binary_Read.
      destruct buf as [|c buf]; [cbn in Hsz; lia|].
      destruct (Nat.leb_spec (width e) (length (c :: buf))); [|lia].
      destruct e; try reflexivity. now contradiction He. }
    cbn [read_extras]. rewrite Hread.
    destruct (IH (skipn (width e) buf) Ht') as (buf' & oex & ->).
    + rewrite length_skipn. lia.
    + eauto.
Qed.

(** It stops with [EOF] or [ErrUnexpectedEOF] when the buffer is too
    short for them. *)
Lemma read_extras_short (buf : bytes) (extras : list extra) :
  typed_extras extras ->
  len buf < extras_size extras ->
  exists buf' oex e,
    read_extras buf extras = (buf', oex, Some e) /\
    (e = EOF \/ e = ErrUnexpectedEOF).
Proof.
  revert buf. induction extras as [|e extras IH]; intros buf Ht Hsz.
  - cbn in Hsz. unfold len in Hsz. lia.
  - inversion Ht as [|? ? He Ht']; subst.
    cbn [extras_size fold_right] in Hsz. fold (extras_size extras) in Hsz.
    unfold len in *. cbn [read_extras].
    destruct buf as [|c buf].
    { exists [], (e :: extras), EOF. split; [|left; reflexivity].
      destruct e; try reflexivity. now contradiction He. }
    destruct (Nat.leb_spec (width e) (length (c :: buf))) as [Hle | Hgt].
    + assert (Hread : binary_Read (c :: buf) e
                      = (skipn (width e) (c :: buf),
                         put e (de (firstn (width e) (c :: buf))), None)).
      { unfold binary_Read.
        destruct (Nat.leb_spec (width e) (length (c :: buf))); [|lia].
        destruct e; try reflexivity. now contradiction He. }
      rewrite Hread.
      destruct (IH (skipn (width e) (c :: buf)) Ht')
        as (buf' & oex & e' & -> & He').
      * rewrite length_skipn. lia.
      * eauto 6.
    + exists [], (e :: extras), ErrUnexpectedEOF.
      split; [|right; reflexivity].
      unfold binary_Read.
      destruct (Nat.leb_spec (width e) (length (c :: buf))); [lia|].
      destruct e; try reflexivity. now contradiction He.
Qed.

(** X5. A response whose body is shorter than its key and extras together,
    [BodyLen < ExtraLen + KeyLen], makes [recv] panic whenever it gets to
    cut the value, whose length is then negative: when the extras are not
    read, the status not being 0 or [ExtraLen] being 0, and when the
    message's output extras, of the known types, are read in full.  Only
    when the extras are to be read and the body is too short for them does
    the call return instead, with the error of [binary.Read], [EOF] or
    [ErrUnexpectedEOF]. *)
Theorem recv_negative_value_panics (m : msg) (rw : ReadWriter) (h : header)
    (body rest : bytes) :
  response rw h body rest ->
  BodyLen h < ExtraLen h + KeyLen h ->
  (ResvOrStatus h <> 0 \/ ExtraLen h = 0 ->
   recv m rw = (Panic "slice bounds out of range", set_rd rw rest)) /\
  (ResvOrStatus h = 0 -> 0 < ExtraLen h -> typed_extras (oextras m) ->
   extras_size (oextras m) <= len body ->
   recv m rw = (Panic "slice bounds out of range", set_rd rw rest)) /\
  (ResvOrStatus h = 0 -> 0 < ExtraLen h -> typed_extras (oextras m) ->
   len body < extras_size (oextras m) ->
   exists m' e,
     recv m rw = (Ret (m', Some e), set_rd rw rest) /\
     (e = EOF \/ e = ErrUnexpectedEOF)).
Proof.
  intros Hresp Hneg.
  assert (Hk : 0 <= KeyLen h).
  { destruct Hresp as (hb & _ & <- & _). apply de_nonneg. }
  assert (Hpanic : forall buf oex,
    (if (ResvOrStatus h =? 0) && (ExtraLen h >? 0)
     then read_extras body (oextras m)
     else (body, oextras m, None)) = (buf, oex, None) ->
    recv m rw = (Panic "slice bounds out of range", set_rd rw rest)).
  { intros buf oex Hex.
    rewrite (recv_frame m rw h body rest buf oex Hresp Hex).
    unfold bind, lift. rewrite Next_nonneg by exact Hk.
    rewrite Next_neg by lia. reflexivity. }
  assert (Hreads : ResvOrStatus h = 0 -> 0 < ExtraLen h ->
                   (ResvOrStatus h =? 0) && (ExtraLen h >? 0) = true).
  { intros -> Hx. destruct (Z.gtb_spec (ExtraLen h) 0); [reflexivity | lia]. }
  repeat split.
  - intros Hskip. apply (Hpanic body (oextras m)).
    destruct Hskip as [Hst | Hx].
    + destruct (Z.eqb_spec (ResvOrStatus h) 0); [contradiction | reflexivity].
    + rewrite Hx, andb_false_r. reflexivity.
  - intros Hst Hx Ht Hsz.
    destruct (read_extras_enough body (oextras m) Ht Hsz)
      as (buf & oex & Hread).
    apply (Hpanic buf oex). rewrite (Hreads Hst Hx). exact Hread.
  - intros Hst Hx Ht Hsz.
    destruct (read_extras_short body (oextras m) Ht Hsz)
      as (buf & oex & e & Hread & He).
    exists (mkMsg h (iextras m) oex (key m) (val m)), e.
    split; [|exact He].
    apply (recv_frame_error m rw h body rest buf oex e Hresp).
    rewrite (Hreads Hst Hx). exact Hread.
Qed.

Lemma recv_negative_value_panics_witness :
  recv (mkMsg (mkHeader 0 opDelete 0 0 0 0 0 0 0) [] [] (B "foo") [])
       (rw_fresh (encode_header
                    (mkHeader magicRecv opDelete 3 0 0 StatusOK 0 0 0)))
  = (Panic "slice bounds out of range", rw_fresh []) /\
  recv (mkMsg (mkHeader 0 opGet 0 0 0 0 0 0 0) [] [U32 0] (B "foo") [])
       (rw_fresh (encode_header
                    (mkHeader magicRecv opGet 3 4 0 StatusOK 4 0 0)
                  ++ be 4 123))
  = (Panic "slice bounds out of range", rw_fresh []) /\
  exists m' e,
    recv (mkMsg (mkHeader 0 opGet 0 0 0 0 0 0 0) [] [U32 0] (B "foo") [])
         (rw_fresh (encode_header
                      (mkHeader magicRecv opGet 0 4 0 StatusOK 0 0 0)))
    = (Ret (m', Some e), rw_fresh []) /\
    (e = EOF \/ e = ErrUnexpectedEOF).
Proof.
  split; [|split].
  - apply (proj1 (recv_negative_value_panics
             (mkMsg (mkHeader 0 opDelete 0 0 0 0 0 0 0) [] [] (B "foo") [])
             (rw_fresh (encode_header
                          (mkHeader magicRecv opDelete 3 0 0 StatusOK 0 0
                                    0)))
             (mkHeader magicRecv opDelete 3 0 0 StatusOK 0 0 0) [] []
             (ex_intro _ (encode_header
                            (mkHeader magicRecv opDelete 3 0 0 StatusOK 0 0
                                      0))
                (conj eq_refl (conj eq_refl (conj eq_refl eq_refl))))
             eq_refl)).
    right. reflexivity.
  - apply (proj1 (proj2 (recv_negative_value_panics
             (mkMsg (mkHeader 0 opGet 0 0 0 0 0 0 0) [] [U32 0] (B "foo") [])
             (rw_fresh (encode_header
                          (mkHeader magicRecv opGet 3 4 0 StatusOK 4 0 0)
                        ++ be 4 123))
             (mkHeader magicRecv opGet 3 4 0 StatusOK 4 0 0) (be 4 123) []
             (ex_intro _ (encode_header
                            (mkHeader magicRecv opGet 3 4 0 StatusOK 4 0 0))
                (conj eq_refl (conj eq_refl (conj eq_refl eq_refl))))
             eq_refl))).
    + reflexivity.
    + reflexivity.
    + repeat constructor; discriminate.
    + vm_compute. discriminate.
  - apply (proj2 (proj2 (recv_negative_value_panics
             (mkMsg (mkHeader 0 opGet 0 0 0 0 0 0 0) [] [U32 0] (B "foo") [])
             (rw_fresh (encode_header
                          (mkHeader magicRecv opGet 0 4 0 StatusOK 0 0 0)))
             (mkHeader magicRecv opGet 0 4 0 StatusOK 0 0 0) [] []
             (ex_intro _ (encode_header
                            (mkHeader magicRecv opGet 0 4 0 StatusOK 0 0 0))
                (conj eq_refl (conj eq_refl (conj eq_refl eq_refl))))
             eq_refl))).
    + reflexivity.
    + reflexivity.
    + repeat constructor; discriminate.
    + reflexivity.
Defined.

(** X6. A response that stops short is a read error, [EOF] or
    [ErrUnexpectedEOF], never a panic and never a success: when fewer than
    24 bytes come, and when the header comes whole but fewer bytes follow
    than its [BodyLen]. *)
Theorem recv_truncated (m : msg) (rw : ReadWriter) :
  ((length (rd rw) < 24)%nat ->
   exists e rw', recv m rw = (Ret (m, Some e), rw') /\ read_error e) /\
  (forall hb tail,
     rd rw = hb ++ tail -> length hb = 24%nat ->
     len tail < BodyLen (decode_header hb) ->
     exists e rw',
       recv m rw = (Ret (with_hdr m (decode_header hb), Some e), rw') /\
       read_error e).
Proof.
  split.
  - intros Hshort. unfold recv, bind.
    destruct (ReadFull_short 24 rw Hshort) as (buf & e & rw' & -> & He).
    exists e, rw'. split; [reflexivity | exact He].
  - intros hb tail Hrd Hlen Hshort. unfold recv. unfold bind at 1.
    rewrite ReadFull_enough by (rewrite Hrd, length_app; lia).
    rewrite Hrd, <- Hlen, firstn_app_exact, skipn_app_exact.
    cbv beta iota zeta. unfold bind.
    destruct (ReadFull_short (Z.to_nat (BodyLen (decode_header hb)))
                (set_rd rw tail)) as (buf & e & rw' & -> & He).
    { cbn [set_rd rd]. unfold len in Hshort. lia. }
    exists e, rw'. split; [reflexivity | exact He].
Qed.

Lemma recv_truncated_witness :
  exists e rw',
    recv (mkMsg (mkHeader 0 opGet 0 0 0 0 0 0 0) [] [] [] [])
         (rw_fresh (response_header opGet StatusOK 6 ++ B "foo"))
    = (Ret (with_hdr (mkMsg (mkHeader 0 opGet 0 0 0 0 0 0 0) [] [] [] [])
                     (decode_header (response_header opGet StatusOK 6)),
            Some e), rw') /\ read_error e.
Proof.
  apply (proj2 (recv_truncated
                  (mkMsg (mkHeader 0 opGet 0 0 0 0 0 0 0) [] [] [] [])
                  (rw_fresh (response_header opGet StatusOK 6 ++ B "foo")))
               (response_header opGet StatusOK 6) (B "foo")).
  - reflexivity.
  - reflexivity.
  - reflexivity.
Defined.

Lemma response_set_rd (rw rw' : ReadWriter) (h : header)
    (body rest : bytes) :
  rd rw' = rd rw -> response rw h body rest -> response rw' h body rest.
Proof.
  intros Hrd (hb & Hlen & Hdec & Hr & Hbody).
  exists hb. rewrite Hrd. auto.
Qed.

Lemma response_KeyLen (rw : ReadWriter) (h : header) (body rest : bytes) :
  response rw h body rest -> 0 <= KeyLen h.
Proof. intros (hb & _ & <- & _). apply de_nonneg. Qed.

(** [recv] of a whole response frame whose lengths fit, whatever it does
    with the extras. *)
Lemma recv_extras_run (m : msg) (rw : ReadWriter) (h : header)
    (body rest buf : bytes) (oex : list extra) :
  response rw h body rest ->
  (if (ResvOrStatus h =? 0) && (ExtraLen h >? 0)
   then read_extras body (oextras m)
   else (body, oextras m, None)) = (buf, oex, None) ->
  ExtraLen h + KeyLen h <= BodyLen h ->
  recv m rw
  = (Ret (mkMsg h (iextras m) oex (firstn (Z.to_nat (KeyLen h)) buf)
            (firstn (Z.to_nat (BodyLen h - ExtraLen h - KeyLen h))
                    (skipn (Z.to_nat (KeyLen h)) buf)),
          newError (ResvOrStatus h)),
     set_rd rw rest).
Proof.
  intros Hresp Hex Hfit.
  pose proof (response_KeyLen rw h body rest Hresp) as Hk.
  rewrite (recv_frame m rw h body rest buf oex Hresp Hex).
  unfold bind, lift. rewrite Next_nonneg by exact Hk.
  rewrite Next_nonneg by lia. reflexivity.
Qed.

(** ** Commands without extras *)

(** X7. [Delete] and [DeleteCas] on a working connection: the frame is the
    header with opcode DELETE and the CAS asked for (0 for [Delete]) followed
    by the key, and the result is the error of the response's status, with
    the rest of the stream left unread. *)
Theorem bin_Delete_exchange (k : bytes) (cas : Z) (rw : ReadWriter)
    (h : header) (body rest : bytes) :
  writable rw ->
  response rw h body rest ->
  ExtraLen h + KeyLen h <= BodyLen h ->
  DeleteCas k cas rw
  = (Ret (newError (ResvOrStatus h)),
     flushed rw (key_frame opDelete k [] cas) rest) /\
  Delete k rw
  = (Ret (newError (ResvOrStatus h)),
     flushed rw (key_frame opDelete k [] 0) rest).
Proof.
  intros Hw Hresp Hfit.
  assert (H : forall c, DeleteCas k c rw
    = (Ret (newError (ResvOrStatus h)),
       flushed rw (key_frame opDelete k [] c) rest)).
  { intros c. unfold DeleteCas. unfold bind.
    erewrite sendRecv_run;
      [ | exact Hw | reflexivity | reflexivity | reflexivity | exact Hresp
        | exact Hfit].
    cbv beta iota delta [key val hdr iextras Op CAS].
    unfold key_frame, request_header, ret. reflexivity. }
  split; [apply H | apply (H 0)].
Qed.

Lemma bin_Delete_exchange_witness :
  Delete (B "foo") (rw_fresh (response_header opDelete StatusNotFound 0))
  = (Ret (Some ErrCacheMiss),
     flushed (rw_fresh (response_header opDelete StatusNotFound 0))
             (key_frame opDelete (B "foo") [] 0) []).
Proof.
  apply (bin_Delete_exchange (B "foo") 0
           (rw_fresh (response_header opDelete StatusNotFound 0))
           (mkHeader magicRecv opDelete 0 0 0 StatusNotFound 0 0 0) [] []).
  - split; reflexivity.
  - exists (response_header opDelete StatusNotFound 0).
    repeat split; reflexivity.
  - vm_compute. discriminate.
Defined.

(** X8. [Ping], [DeleteAll] and [FlushAll] send a bare header of 24 bytes,
    with opcode VERSION for [Ping] and FLUSH for the other two, and return
    the error of the response's status: nothing of the response but its
    status is looked at. *)
Theorem bin_header_only_commands (rw : ReadWriter) (h : header)
    (body rest : bytes) :
  writable rw ->
  response rw h body rest ->
  ExtraLen h + KeyLen h <= BodyLen h ->
  Ping rw
  = (Ret (newError (ResvOrStatus h)),
     flushed rw (key_frame opVersion [] [] 0) rest) /\
  DeleteAll rw
  = (Ret (newError (ResvOrStatus h)),
     flushed rw (key_frame opFlush [] [] 0) rest) /\
  FlushAll rw = DeleteAll rw /\
  length (key_frame opVersion [] [] 0) = 24%nat /\
  length (key_frame opFlush [] [] 0) = 24%nat.
Proof.
  intros Hw Hresp Hfit.
  repeat split.
  - unfold Ping. unfold bind.
    erewrite sendRecv_run;
      [ | exact Hw | reflexivity | reflexivity | reflexivity | exact Hresp
        | exact Hfit].
    reflexivity.
  - unfold DeleteAll. unfold bind.
    erewrite sendRecv_run;
      [ | exact Hw | reflexivity | reflexivity | reflexivity | exact Hresp
        | exact Hfit].
    reflexivity.
Qed.

Lemma bin_header_only_commands_witness :
  Ping (rw_fresh (response_header opGet StatusOK 5 ++ B "1.6.9"))
  = (Ret None,
     flushed (rw_fresh (response_header opGet StatusOK 5 ++ B "1.6.9"))
             (key_frame opVersion [] [] 0) []).
Proof.
  apply (bin_header_only_commands
           (rw_fresh (response_header opGet StatusOK 5 ++ B "1.6.9"))
           (mkHeader magicRecv opGet 0 0 0 StatusOK 5 0 0) (B "1.6.9") []).
  - split; reflexivity.
  - exists (response_header opGet StatusOK 5).
    repeat split; reflexivity.
  - vm_compute. discriminate.
Defined.

(** ** Counters *)

(** X9. [IncrDecr] end to end: when the response's status is 0 and its
    value is the 8 bytes of a 64-bit number in big-endian order, that number
    is returned with no error; when the status is not 0, the result is 0
    with the error of the status, so [ErrCacheMiss] for a key that is
    not there. *)
Theorem bin_IncrDecr_counter (verb : Verb) (k : bytes) (delta v : Z)
    (rw : ReadWriter) (h : header) (body rest : bytes) :
  writable rw ->
  response rw h body rest ->
  ExtraLen h + KeyLen h <= BodyLen h ->
  (ResvOrStatus h = StatusOK -> response_value h body = be 8 v ->
   0 <= v < 2 ^ 64 ->
   IncrDecr verb k delta rw
   = (Ret (v, None),
      flushed rw (counter_frame (verbToOp verb) k delta) rest)) /\
  (forall e, newError (ResvOrStatus h) = Some e ->
   IncrDecr verb k delta rw
   = (Ret (0, Some e),
      flushed rw (counter_frame (verbToOp verb) k delta) rest)).
Proof.
  intros Hw Hresp Hfit.
  pose proof (bin_IncrDecr_run verb k delta rw h body rest Hw Hresp Hfit)
    as Hrun.
  split.
  - intros Hst Hval Hv. rewrite Hrun, Hst, Hval.
    rewrite readInt_de by apply length_be.
    rewrite de_be. change (8 * Z.of_nat 8) with 64.
    rewrite Z.mod_small by exact Hv. reflexivity.
  - intros e He. rewrite Hrun, He. reflexivity.
Qed.

Lemma bin_IncrDecr_counter_witness :
  IncrDecr Incr (B "num") 8
    (rw_fresh (response_header opIncrement StatusOK 8 ++ be 8 58))
  = (Ret (58, None),
     flushed (rw_fresh (response_header opIncrement StatusOK 8 ++ be 8 58))
             (counter_frame opIncrement (B "num") 8) []) /\
  IncrDecr Decr (B "num") 8
    (rw_fresh (response_header opDecrement StatusNotFound 0))
  = (Ret (0, Some ErrCacheMiss),
     flushed (rw_fresh (response_header opDecrement StatusNotFound 0))
             (counter_frame opDecrement (B "num") 8) []).
Proof.
  split.
  - apply (proj1 (bin_IncrDecr_counter Incr (B "num") 8 58
             (rw_fresh (response_header opIncrement StatusOK 8 ++ be 8 58))
             (mkHeader magicRecv opIncrement 0 0 0 StatusOK 8 0 0)
             (be 8 58) []
             (conj eq_refl eq_refl)
             (ex_intro _ (response_header opIncrement StatusOK 8)
                (conj eq_refl (conj eq_refl (conj eq_refl eq_refl))))
             ltac:(vm_compute; discriminate)));
      [reflexivity | reflexivity | lia].
  - apply (proj2 (bin_IncrDecr_counter Decr (B "num") 8 0
             (rw_fresh (response_header opDecrement StatusNotFound 0))
             (mkHeader magicRecv opDecrement 0 0 0 StatusNotFound 0 0 0)
             [] []
             (conj eq_refl eq_refl)
             (ex_intro _ (response_header opDecrement StatusNotFound 0)
                (conj eq_refl (conj eq_refl (conj eq_refl eq_refl))))
             ltac:(vm_compute; discriminate))).
    reflexivity.
Defined.

(** ** Retrieval *)

(** [getOne] on a working connection, answered by a response frame whose
    lengths fit and whose extras, if read, are read without error. *)
Lemma getOne_run (k : bytes) (got : list Item) (rw : ReadWriter)
    (h : header) (body rest buf : bytes) (oex : list extra) :
  writable rw ->
  response rw h body rest ->
  (if (ResvOrStatus h =? 0) && (ExtraLen h >? 0)
   then read_extras body [U32 0]
   else (body, [U32 0], None)) = (buf, oex, None) ->
  ExtraLen h + KeyLen h <= BodyLen h ->
  getOne k got rw
  = (Ret (match newError (ResvOrStatus h) with
          | Some e => (got, Some e)
          | None =>
              (got ++ [mkItem k
                         (firstn (Z.to_nat (BodyLen h - ExtraLen h
                                            - KeyLen h))
                                 (skipn (Z.to_nat (KeyLen h)) buf))
                         (extra_value (nth 0 oex (U32 0))) 0 (CAS h)],
               None)
          end),
     flushed rw (key_frame opGet k [] 0) rest).
Proof.
  intros Hw Hresp Hex Hfit. unfold getOne, sendRecv. unfold bind.
  erewrite send_run; [ | exact Hw | reflexivity | reflexivity].
  erewrite recv_extras_run; [ | exact Hresp | exact Hex | exact Hfit].
  destruct (newError (ResvOrStatus h)); reflexivity.
Qed.

Lemma newError_Some_status (status : Z) (e : error) :
  newError status = Some e -> (status =? 0) = false.
Proof.
  intros H. destruct (Z.eqb_spec status 0) as [-> | Hn]; [|reflexivity].
  discriminate H.
Qed.

(** X10. A hit of [getOne]: when the status is 0 and the response carries
    extras, the first four bytes of the body are the flags, big endian,
    whatever the header's [ExtraLen] says; the value is cut from the rest of
    the body by the header's lengths; the item handed to the callback has the
    key asked for, that value, those flags, the CAS of the response header
    and no expiration. *)
Theorem bin_getOne_hit (k : bytes) (got : list Item) (rw : ReadWriter)
    (h : header) (fb payload rest : bytes) :
  writable rw ->
  response rw h (fb ++ payload) rest ->
  ResvOrStatus h = StatusOK ->
  0 < ExtraLen h ->
  length fb = 4%nat ->
  ExtraLen h + KeyLen h <= BodyLen h ->
  getOne k got rw
  = (Ret (got ++ [mkItem k
                    (firstn (Z.to_nat (BodyLen h - ExtraLen h - KeyLen h))
                            (skipn (Z.to_nat (KeyLen h)) payload))
                    (de fb) 0 (CAS h)],
          None),
     flushed rw (key_frame opGet k [] 0) rest).
Proof.
  intros Hw Hresp Hst Hx Hfb Hfit.
  rewrite (getOne_run k got rw h (fb ++ payload) rest payload [U32 (de fb)]
             Hw Hresp).
  - rewrite Hst. reflexivity.
  - rewrite Hst. change (StatusOK =? 0) with true.
    destruct (Z.gtb_spec (ExtraLen h) 0) as [_ | Hle]; [|lia].
    destruct fb as [|b0 [|b1 [|b2 [|b3 [|]]]]]; try discriminate Hfb.
    reflexivity.
  - exact Hfit.
Qed.

Lemma bin_getOne_hit_witness :
  getOne (B "foo") []
    (rw_fresh (encode_header
                 (mkHeader magicRecv opGet 0 4 0 StatusOK 10 0 7)
               ++ be 4 123 ++ B "fooval"))
  = (Ret ([mkItem (B "foo") (B "fooval") 123 0 7], None),
     flushed (rw_fresh (encode_header
                          (mkHeader magicRecv opGet 0 4 0 StatusOK 10 0 7)
                        ++ be 4 123 ++ B "fooval"))
             (key_frame opGet (B "foo") [] 0) []).
Proof.
  apply (bin_getOne_hit (B "foo") []
           (rw_fresh (encode_header
                        (mkHeader magicRecv opGet 0 4 0 StatusOK 10 0 7)
                      ++ be 4 123 ++ B "fooval"))
           (mkHeader magicRecv opGet 0 4 0 StatusOK 10 0 7)
           (be 4 123) (B "fooval") []).
  - split; reflexivity.
  - exists (encode_header (mkHeader magicRecv opGet 0 4 0 StatusOK 10 0 7)).
    repeat split; reflexivity.
  - reflexivity.
  - reflexivity.
  - reflexivity.
  - vm_compute. discriminate.
Defined.

(** X11. A miss of [getOne]: when the status of the response is not 0 the
    callback is not called, whatever the body holds, and the error of the
    status is returned. *)
Theorem bin_getOne_miss (k : bytes) (got : list Item) (rw : ReadWriter)
    (h : header) (body rest : bytes) (e : error) :
  writable rw ->
  response rw h body rest ->
  ExtraLen h + KeyLen h <= BodyLen h ->
  newError (ResvOrStatus h) = Some e ->
  getOne k got rw
  = (Ret (got, Some e), flushed rw (key_frame opGet k [] 0) rest).
Proof.
  intros Hw Hresp Hfit He.
  rewrite (getOne_run k got rw h body rest body [U32 0] Hw Hresp).
  - rewrite He. reflexivity.
  - rewrite (newError_Some_status _ e He). reflexivity.
  - exact Hfit.
Qed.

Lemma bin_getOne_miss_witness :
  getOne (B "foo") []
    (rw_fresh (response_header opGet StatusNotFound 9 ++ B "Not found"))
  = (Ret ([], Some ErrCacheMiss),
     flushed (rw_fresh (response_header opGet StatusNotFound 9
                        ++ B "Not found"))
             (key_frame opGet (B "foo") [] 0) []).
Proof.
  apply (bin_getOne_miss (B "foo") []
           (rw_fresh (response_header opGet StatusNotFound 9
                      ++ B "Not found"))
           (mkHeader magicRecv opGet 0 0 0 StatusNotFound 9 0 0)
           (B "Not found") [] ErrCacheMiss).
  - split; reflexivity.
  - exists (response_header opGet StatusNotFound 9).
    repeat split; reflexivity.
  - vm_compute. discriminate.
  - reflexivity.
Defined.

(** X12. One turn of the loop of [Get]: a key that is missed is skipped and
    leaves the error kept so far as it is; another error replaces the error
    kept and does not stop the loop either; a hit adds its item and does
    not clear an error kept from an earlier key.  In each case the loop goes
    on with the remaining keys on the rest of the stream. *)
Theorem bin_Get_step (k : bytes) (keys : list bytes) (err : option error)
    (got : list Item) (rw : ReadWriter) (h : header) (body rest : bytes) :
  writable rw ->
  response rw h body rest ->
  ExtraLen h + KeyLen h <= BodyLen h ->
  (forall e, newError (ResvOrStatus h) = Some e ->
     Get_loop (k :: keys) err got rw
     = Get_loop keys (match e with ErrCacheMiss => err | _ => Some e end)
         got (flushed rw (key_frame opGet k [] 0) rest)) /\
  (forall fb payload,
     ResvOrStatus h = StatusOK -> 0 < ExtraLen h ->
     body = fb ++ payload -> length fb = 4%nat ->
     Get_loop (k :: keys) err got rw
     = Get_loop keys err
         (got ++ [mkItem k
                    (firstn (Z.to_nat (BodyLen h - ExtraLen h - KeyLen h))
                            (skipn (Z.to_nat (KeyLen h)) payload))
                    (de fb) 0 (CAS h)])
         (flushed rw (key_frame opGet k [] 0) rest)).
Proof.
  intros Hw Hresp Hfit. split.
  - intros e He. cbn [Get_loop]. unfold bind at 1.
    rewrite (getOne_run k got rw h body rest body [U32 0] Hw Hresp);
      [ | rewrite (newError_Some_status _ e He); reflexivity | exact Hfit].
    rewrite He. destruct e; reflexivity.
  - intros fb payload Hst Hx -> Hfb. cbn [Get_loop]. unfold bind at 1.
    rewrite (getOne_run k got rw h (fb ++ payload) rest payload
               [U32 (de fb)] Hw Hresp).
    + rewrite Hst. reflexivity.
    + rewrite Hst. change (StatusOK =? 0) with true.
      destruct (Z.gtb_spec (ExtraLen h) 0) as [_ | Hle]; [|lia].
      destruct fb as [|b0 [|b1 [|b2 [|b3 [|]]]]]; try discriminate Hfb.
      reflexivity.
    + exact Hfit.
Qed.

Lemma bin_Get_step_witness :
  Get [B "foo"; B "bar"] []
    (rw_fresh (response_header opGet StatusNotFound 0
               ++ encode_header
                    (mkHeader magicRecv opGet 0 4 0 StatusOK 10 0 7)
               ++ be 4 123 ++ B "barval"))
  = Get [B "bar"] []
      (flushed (rw_fresh (response_header opGet StatusNotFound 0
                          ++ encode_header
                               (mkHeader magicRecv opGet 0 4 0 StatusOK 10
                                         0 7)
                          ++ be 4 123 ++ B "barval"))
         (key_frame opGet (B "foo") [] 0)
         (encode_header (mkHeader magicRecv opGet 0 4 0 StatusOK 10 0 7)
          ++ be 4 123 ++ B "barval")).
Proof.
  apply (proj1 (bin_Get_step (B "foo") [B "bar"] None []
           (rw_fresh (response_header opGet StatusNotFound 0
                      ++ encode_header
                           (mkHeader magicRecv opGet 0 4 0 StatusOK 10 0 7)
                      ++ be 4 123 ++ B "barval"))
           (mkHeader magicRecv opGet 0 0 0 StatusNotFound 0 0 0) []
           (encode_header (mkHeader magicRecv opGet 0 4 0 StatusOK 10 0 7)
            ++ be 4 123 ++ B "barval")
           (conj eq_refl eq_refl)
           (ex_intro _ (response_header opGet StatusNotFound 0)
              (conj eq_refl (conj eq_refl (conj eq_refl eq_refl))))
           ltac:(vm_compute; discriminate)) ErrCacheMiss).
  reflexivity.
Defined.

Lemma getOne_result (k : bytes) (got got' : list Item)
    (eg : option error) (rw rw' : ReadWriter) :
  getOne k got rw = (Ret (got', eg), rw') ->
  (got' = got /\ eg <> None) \/
  (eg = None /\
   exists it, got' = got ++ [it] /\ Key it = k /\ Expiration it = 0).
Proof.
  unfold getOne, bind.
  destruct (sendRecv _ rw) as [[[m [e|]]| |] rw1]; try discriminate.
  - intros [= <- <- _]. left. split; [reflexivity | discriminate].
  - intros [= <- <- _]. right. split; [reflexivity|].
    eexists. repeat split.
Qed.

Lemma Get_loop_result (keys : list bytes) (err : option error)
    (got : list Item) (rw rw' : ReadWriter) (r : list Item * option error) :
  err <> Some ErrCacheMiss ->
  Get_loop keys err got rw = (Ret r, rw') ->
  snd r <> Some ErrCacheMiss /\
  exists more,
    fst r = got ++ more /\ subsequence (map Key more) keys /\
    Forall (fun it => Expiration it = 0) more.
Proof.
  revert err got rw.
  induction keys as [|k keys IH]; intros err got rw Herr.
  - cbn. intros [= <- _]. split; [exact Herr|].
    exists []. rewrite app_nil_r.
    split; [reflexivity | split; constructor].
  - cbn [Get_loop]. unfold bind at 1.
    destruct (getOne k got rw) as [[[got1 eg]| |] rw1] eqn:E;
      try discriminate.
    intros Hrun.
    apply IH in Hrun as (Hne & more & Hfst & Hsub & Hall).
    + split; [exact Hne|].
      apply getOne_result in E
        as [[-> _] | [_ (it & -> & Hk & Hx)]].
      * exists more. repeat split; [exact Hfst | | exact Hall].
        apply subsequence_skip. exact Hsub.
      * exists (it :: more). repeat split.
        -- rewrite Hfst, <- app_assoc. reflexivity.
        -- cbn [map]. rewrite Hk. apply subsequence_take. exact Hsub.
        -- constructor; [exact Hx | exact Hall].
    + destruct eg as [e|]; [destruct e|]; try exact Herr; discriminate.
Qed.

(** X13. What [Get] returns: never [ErrCacheMiss]; and the callback has been
    handed, after what it had before, at most one item per key, in the
    order of the keys: the keys of the new items are the keys asked for
    with some of them left out.  No item has an expiration. *)
Theorem bin_Get_result (keys : list bytes) (got : list Item)
    (rw rw' : ReadWriter) (r : list Item * option error) :
  Get keys got rw = (Ret r, rw') ->
  snd r <> Some ErrCacheMiss /\
  exists more,
    fst r = got ++ more /\ subsequence (map Key more) keys /\
    Forall (fun it => Expiration it = 0) more.
Proof.
  unfold Get. apply Get_loop_result. discriminate.
Qed.

Lemma bin_Get_result_witness :
  exists rw',
    Get [B "foo"; B "bar"] []
      (rw_fresh (response_header opGet StatusNotFound 0
                 ++ encode_header
                      (mkHeader magicRecv opGet 0 4 0 StatusOK 10 0 7)
                 ++ be 4 123 ++ B "barval"))
    = (Ret ([mkItem (B "bar") (B "barval") 123 0 7], None), rw') /\
    exists more,
      [mkItem (B "bar") (B "barval") 123 0 7] = [] ++ more /\
      subsequence (map Key more) [B "foo"; B "bar"] /\
      Forall (fun it => Expiration it = 0) more.
Proof.
  eexists. split.
  - lazy. reflexivity.
  - refine (proj2 (bin_Get_result [B "foo"; B "bar"] []
             (rw_fresh (response_header opGet StatusNotFound 0
                        ++ encode_header
                             (mkHeader magicRecv opGet 0 4 0 StatusOK 10 0
                                       7)
                        ++ be 4 123 ++ B "barval"))
             _ ([mkItem (B "bar") (B "barval") 123 0 7], None) _)).
    lazy. reflexivity.
Defined.

(** ** Touch *)

(** One turn of the loop of [Touch]. *)
Lemma Touch_loop_run (k : bytes) (keys : list bytes) (m : msg) (exp : Z)
    (rw : ReadWriter) (h : header) (body rest : bytes) :
  writable rw ->
  iextras m = [U32 exp] ->
  oextras m = [] ->
  response rw h body rest ->
  ExtraLen h + KeyLen h <= BodyLen h ->
  Touch_loop (k :: keys) m rw
  = match newError (ResvOrStatus h) with
    | Some e =>
        (Ret (Some e), flushed rw (touch_frame (hdr m) exp k (val m)) rest)
    | None =>
        Touch_loop keys
          (mkMsg h [U32 exp] [] (firstn (Z.to_nat (KeyLen h)) body)
                 (response_value h body))
          (flushed rw (touch_frame (hdr m) exp k (val m)) rest)
    end.
Proof.
  intros Hw Hi Ho Hresp Hfit.
  destruct m as [hd ie oe mk mv]. cbn [iextras oextras] in Hi, Ho. subst.
  cbn [Touch_loop hdr iextras oextras val]. unfold bind at 1.
  erewrite sendRecv_run;
    [ | exact Hw | reflexivity | reflexivity | reflexivity | exact Hresp
      | exact Hfit].
  cbv beta iota delta [key val hdr iextras Op CAS].
  unfold touch_frame. rewrite <- !app_assoc.
  destruct (newError (ResvOrStatus h)); reflexivity.
Qed.

(** X14. [Touch] stops at the first response whose status is not 0: it
    returns the error of that status, and of all the keys only the first has
    been put on the wire, in a frame with opcode TOUCH and the expiration as
    its 4 bytes of extras. *)
Theorem bin_Touch_abort (k : bytes) (keys : list bytes) (expiration : Z)
    (rw : ReadWriter) (h : header) (body rest : bytes) (e : error) :
  writable rw ->
  response rw h body rest ->
  ExtraLen h + KeyLen h <= BodyLen h ->
  newError (ResvOrStatus h) = Some e ->
  Touch (k :: keys) expiration rw
  = (Ret (Some e),
     flushed rw
       (encode_header (request_header opTouch 4 k [] 0)
        ++ be 4 (u32 expiration) ++ k) rest).
Proof.
  intros Hw Hresp Hfit He. unfold Touch. cbv zeta.
  rewrite (Touch_loop_run k keys
             (mkMsg (mkHeader 0 opTouch 0 0 0 0 0 0 0)
                    [U32 (u32 expiration)] [] [] [])
             (u32 expiration) rw h body rest Hw
             eq_refl eq_refl Hresp Hfit).
  rewrite He. unfold touch_frame, request_header.
  cbn [hdr val Op DataType ResvOrStatus Opaque CAS].
  now rewrite app_nil_r.
Qed.

Lemma bin_Touch_abort_witness :
  Touch [B "foo"; B "bar"] 60
    (rw_fresh (response_header opTouch StatusNotFound 0))
  = (Ret (Some ErrCacheMiss),
     flushed (rw_fresh (response_header opTouch StatusNotFound 0))
       (encode_header (request_header opTouch 4 (B "foo") [] 0)
        ++ be 4 (u32 60) ++ B "foo") []).
Proof.
  apply (bin_Touch_abort (B "foo") [B "bar"] 60
           (rw_fresh (response_header opTouch StatusNotFound 0))
           (mkHeader magicRecv opTouch 0 0 0 StatusNotFound 0 0 0) [] []
           ErrCacheMiss).
  - split; reflexivity.
  - exists (response_header opTouch StatusNotFound 0).
    repeat split; reflexivity.
  - vm_compute. discriminate.
  - reflexivity.
Defined.

(** X15. [Touch] sends every key from the one message it also receives
    into: the request for the second key carries the opcode, the data type,
    the status, the opaque and the CAS of the response to the first key, and
    the value of that response after the key. *)
Theorem bin_Touch_reuses_response (k1 k2 : bytes) (expiration : Z)
    (rw : ReadWriter) (h1 h2 : header) (body1 rest1 body2 rest2 : bytes) :
  writable rw ->
  response rw h1 body1 rest1 ->
  ExtraLen h1 + KeyLen h1 <= BodyLen h1 ->
  ResvOrStatus h1 = StatusOK ->
  response (set_rd rw rest1) h2 body2 rest2 ->
  ExtraLen h2 + KeyLen h2 <= BodyLen h2 ->
  Touch [k1; k2] expiration rw
  = (Ret (newError (ResvOrStatus h2)),
     flushed rw
       ((encode_header (request_header opTouch 4 k1 [] 0)
         ++ be 4 (u32 expiration) ++ k1)
        ++ touch_frame h1 (u32 expiration) k2 (response_value h1 body1))
       rest2).
Proof.
  intros Hw Hresp1 Hfit1 Hst Hresp2 Hfit2. unfold Touch. cbv zeta.
  rewrite (Touch_loop_run k1 [k2]
             (mkMsg (mkHeader 0 opTouch 0 0 0 0 0 0 0)
                    [U32 (u32 expiration)] [] [] [])
             (u32 expiration) rw h1 body1 rest1 Hw
             eq_refl eq_refl Hresp1 Hfit1).
  rewrite Hst. change (newError StatusOK) with (@None error). cbv iota.
  cbn [hdr val].
  rewrite (Touch_loop_run k2 []
             (mkMsg h1 [U32 (u32 expiration)] []
                    (firstn (Z.to_nat (KeyLen h1)) body1)
                    (response_value h1 body1))
             (u32 expiration)
             (flushed rw
                (touch_frame (mkHeader 0 opTouch 0 0 0 0 0 0 0)
                   (u32 expiration) k1 []) rest1)
             h2 body2 rest2);
    [ | split; reflexivity | reflexivity | reflexivity | exact Hresp2
      | exact Hfit2].
  cbn [hdr val Touch_loop].
  assert (Hfl : forall a b,
    flushed (flushed rw a rest1) b rest2 = flushed rw (a ++ b) rest2).
  { intros a b. unfold flushed.
    cbn [rd rsize wbuf sent]. rewrite app_nil_l, <- !app_assoc.
    reflexivity. }
  rewrite Hfl.
  replace (touch_frame (mkHeader 0 opTouch 0 0 0 0 0 0 0) (u32 expiration)
             k1 [])
    with (encode_header (request_header opTouch 4 k1 [] 0)
          ++ be 4 (u32 expiration) ++ k1)
    by (unfold touch_frame, request_header;
        cbn [Op DataType ResvOrStatus Opaque CAS];
        now rewrite app_nil_r).
  destruct (newError (ResvOrStatus h2)); reflexivity.
Qed.

Lemma bin_Touch_reuses_response_witness :
  Touch [B "foo"; B "bar"] 60
    (rw_fresh (encode_header
                 (mkHeader magicRecv opTouch 0 0 0 StatusOK 0 0 7)
               ++ response_header opTouch StatusKeyExists 0))
  = (Ret (Some ErrCASConflict),
     flushed
       (rw_fresh (encode_header
                    (mkHeader magicRecv opTouch 0 0 0 StatusOK 0 0 7)
                  ++ response_header opTouch StatusKeyExists 0))
       ((encode_header (request_header opTouch 4 (B "foo") [] 0)
         ++ be 4 (u32 60) ++ B "foo")
        ++ encode_header (request_header opTouch 4 (B "bar") [] 7)
        ++ be 4 (u32 60) ++ B "bar") []).
Proof.
  apply (bin_Touch_reuses_response (B "foo") (B "bar") 60
           (rw_fresh (encode_header
                        (mkHeader magicRecv opTouch 0 0 0 StatusOK 0 0 7)
                      ++ response_header opTouch StatusKeyExists 0))
           (mkHeader magicRecv opTouch 0 0 0 StatusOK 0 0 7)
           (mkHeader magicRecv opTouch 0 0 0 StatusKeyExists 0 0 0)
           [] (response_header opTouch StatusKeyExists 0) [] []).
  - split; reflexivity.
  - exists (encode_header (mkHeader magicRecv opTouch 0 0 0 StatusOK 0 0 7)).
    repeat split; reflexivity.
  - vm_compute. discriminate.
  - reflexivity.
  - exists (response_header opTouch StatusKeyExists 0).
    repeat split; reflexivity.
  - vm_compute. discriminate.
Defined.

(** ** Authentication *)

Lemma authList_run (rw : ReadWriter) (h : header) (body rest : bytes) :
  writable rw ->
  response rw h body rest ->
  ExtraLen h + KeyLen h <= BodyLen h ->
  authList rw
  = (Ret (response_value h body, newError (ResvOrStatus h)),
     flushed rw (key_frame opAuthList [] [] 0) rest).
Proof.
  intros Hw Hresp Hfit. unfold authList. unfold bind.
  erewrite sendRecv_run;
    [ | exact Hw | reflexivity | reflexivity | reflexivity | exact Hresp
      | exact Hfit].
  reflexivity.
Qed.

(** X16. [Auth] gives up after the list of mechanisms: when the server
    answers the AUTH_LIST request with a status that is not 0, the error of
    that status is returned; when the list it answers does not hold the word
    PLAIN, the error names the list.  In both cases the AUTH_LIST frame, a
    bare header, is all that was sent: the credentials stay off the wire. *)
Theorem bin_Auth_refused (username password : bytes) (rw : ReadWriter)
    (h : header) (body rest : bytes) :
  writable rw ->
  response rw h body rest ->
  ExtraLen h + KeyLen h <= BodyLen h ->
  (forall e, newError (ResvOrStatus h) = Some e ->
     Auth username password rw
     = (Ret (Some e), flushed rw (key_frame opAuthList [] [] 0) rest)) /\
  (ResvOrStatus h = StatusOK ->
   ~ contains (response_value h body) (B "PLAIN") ->
   Auth username password rw
   = (Ret (Some (Errorf "memcache: unknown auth types %q"
                   [response_value h body])),
      flushed rw (key_frame opAuthList [] [] 0) rest)).
Proof.
  intros Hw Hresp Hfit. split.
  - intros e He. unfold Auth. unfold bind at 1.
    rewrite (authList_run rw h body rest Hw Hresp Hfit), He. reflexivity.
  - intros Hst Hno. unfold Auth. unfold bind at 1.
    rewrite (authList_run rw h body rest Hw Hresp Hfit), Hst.
    change (newError StatusOK) with (@None error). cbv iota.
    destruct (Z.eqb_spec (Index (response_value h body) (B "PLAIN")) (-1))
      as [_ | Hne]; [reflexivity|].
    apply LibProps.Index_contains in Hne. contradiction.
Qed.

Lemma bin_Auth_refused_witness :
  Auth (B "user") (B "secret")
    (rw_fresh (response_header opAuthList StatusOK 8 ++ B "CRAM-MD5"))
  = (Ret (Some (Errorf "memcache: unknown auth types %q" [B "CRAM-MD5"])),
     flushed (rw_fresh (response_header opAuthList StatusOK 8
                        ++ B "CRAM-MD5"))
             (key_frame opAuthList [] [] 0) []).
Proof.
  apply (proj2 (bin_Auth_refused (B "user") (B "secret")
           (rw_fresh (response_header opAuthList StatusOK 8
                      ++ B "CRAM-MD5"))
           (mkHeader magicRecv opAuthList 0 0 0 StatusOK 8 0 0)
           (B "CRAM-MD5") []
           (conj eq_refl eq_refl)
           (ex_intro _ (response_header opAuthList StatusOK 8)
              (conj eq_refl (conj eq_refl (conj eq_refl eq_refl))))
           ltac:(vm_compute; discriminate))).
  - reflexivity.
  - intros Hc. apply LibProps.Index_contains in Hc. apply Hc.
    vm_compute. reflexivity.
Defined.

(** X17. [Auth] with PLAIN on offer: when the list the server answers holds
    the word PLAIN, a second frame follows the AUTH_LIST frame, with opcode
    AUTH_START, the key PLAIN and as value a zero byte, the user name, a
    zero byte and the password; the result is the error of the status of
    the second response. *)
Theorem bin_Auth_plain (username password : bytes) (rw : ReadWriter)
    (h1 h2 : header) (body1 rest1 body2 rest2 : bytes) :
  writable rw ->
  response rw h1 body1 rest1 ->
  ExtraLen h1 + KeyLen h1 <= BodyLen h1 ->
  ResvOrStatus h1 = StatusOK ->
  contains (response_value h1 body1) (B "PLAIN") ->
  response (set_rd rw rest1) h2 body2 rest2 ->
  ExtraLen h2 + KeyLen h2 <= BodyLen h2 ->
  Auth username password rw
  = (Ret (newError (ResvOrStatus h2)),
     flushed rw
       (key_frame opAuthList [] [] 0
        ++ key_frame opAuthStart (B "PLAIN")
             ([zero] ++ username ++ [zero] ++ password) 0)
       rest2).
Proof.
  intros Hw Hresp1 Hfit1 Hst Hc Hresp2 Hfit2.
  unfold Auth. unfold bind at 1.
  rewrite (authList_run rw h1 body1 rest1 Hw Hresp1 Hfit1), Hst.
  change (newError StatusOK) with (@None error). cbv iota.
  apply LibProps.Index_contains in Hc.
  destruct (Z.eqb_spec (Index (response_value h1 body1) (B "PLAIN")) (-1))
    as [Heq | _]; [contradiction|].
  cbn [negb]. unfold authPlain. unfold bind.
  erewrite sendRecv_run;
    [ | split; reflexivity | reflexivity | reflexivity | reflexivity
      | exact Hresp2 | exact Hfit2].
  unfold ret, flushed. cbn [rd rsize wbuf sent key val hdr Op CAS].
  rewrite app_nil_l, <- !app_assoc. reflexivity.
Qed.

Lemma bin_Auth_plain_witness :
  Auth (B "user") (B "secret")
    (rw_fresh (response_header opAuthList StatusOK 14 ++ B "CRAM-MD5 PLAIN"
               ++ response_header opAuthStart StatusOK 13
               ++ B "Authenticated"))
  = (Ret None,
     flushed
       (rw_fresh (response_header opAuthList StatusOK 14
                  ++ B "CRAM-MD5 PLAIN"
                  ++ response_header opAuthStart StatusOK 13
                  ++ B "Authenticated"))
       (key_frame opAuthList [] [] 0
        ++ key_frame opAuthStart (B "PLAIN")
             ([zero] ++ B "user" ++ [zero] ++ B "secret") 0)
       []).
Proof.
  apply (bin_Auth_plain (B "user") (B "secret")
           (rw_fresh (response_header opAuthList StatusOK 14
                      ++ B "CRAM-MD5 PLAIN"
                      ++ response_header opAuthStart StatusOK 13
                      ++ B "Authenticated"))
           (mkHeader magicRecv opAuthList 0 0 0 StatusOK 14 0 0)
           (mkHeader magicRecv opAuthStart 0 0 0 StatusOK 13 0 0)
           (B "CRAM-MD5 PLAIN")
           (response_header opAuthStart StatusOK 13 ++ B "Authenticated")
           (B "Authenticated") []).
  - split; reflexivity.
  - exists (response_header opAuthList StatusOK 14).
    repeat split; reflexivity.
  - vm_compute. discriminate.
  - reflexivity.
  - exists (B "CRAM-MD5 "), []. reflexivity.
  - exists (response_header opAuthStart StatusOK 13).
    repeat split; reflexivity.
  - vm_compute. discriminate.
Defined.

(** ** A writer that fails *)

(** X18. A request that cannot be written is not followed by a read: when
    the writer holds an error or the connection refuses writes, [sendRecv]
    returns the transport error, nothing reaches the peer and nothing of the
    stream is consumed. *)
Theorem bin_sendRecv_broken_writer (m : msg) (rw : ReadWriter) :
  typed_extras (iextras m) ->
  werr rw = true \/ wdown rw = true ->
  exists m' rw',
    sendRecv m rw = (Ret (m', Some ErrTransport), rw') /\
    rd rw' = rd rw /\ sent rw' = sent rw.
Proof.
  intros Ht Hbroken.
  unfold sendRecv, send. unfold bind at 1 2. unfold lift, sizeOfExtras.
  rewrite sizeOfExtras_loop_typed by (try assumption; lia).
  cbv zeta.
  match goal with
  | |- context [with_hdr m ?h0] => set (h := h0)
  end.
  change (iextras (with_hdr m h)) with (iextras m).
  rewrite write_extras_typed by exact Ht.
  unfold bind at 1. unfold Write.
  destruct (werr rw) eqn:He.
  - eexists _, rw. split; [reflexivity | split; reflexivity].
  - destruct Hbroken as [Hb | Hd]; [discriminate Hb|].
    unfold bind, Flush. cbn [werr wbuf wdown rd rsize sent].
    rewrite Hd.
    match goal with
    | |- context [match ?l with [] => _ | _ :: _ => _ end] =>
        destruct l eqn:E
    end.
    + apply app_eq_nil in E as [_ E]. discriminate E.
    + eexists _, _. split; [reflexivity | split; reflexivity].
Qed.

Lemma bin_sendRecv_broken_writer_witness :
  exists m' rw',
    sendRecv (mkMsg (mkHeader 0 opGet 0 0 0 0 0 0 0) [] [U32 0] (B "foo") [])
             (mkRW (B "pending") 4096 [] [] false true)
    = (Ret (m', Some ErrTransport), rw') /\
    rd rw' = rd (mkRW (B "pending") 4096 [] [] false true) /\
    sent rw' = sent (mkRW (B "pending") 4096 [] [] false true).
Proof.
  apply (bin_sendRecv_broken_writer
           (mkMsg (mkHeader 0 opGet 0 0 0 0 0 0 0) [] [U32 0] (B "foo") [])
           (mkRW (B "pending") 4096 [] [] false true)).
  - constructor.
  - right. reflexivity.
Defined.

End BinExtra.

(** ** The other commands of the text driver *)

Module TextExtra.
Import types bufio conn text ConnProps TextProps.
Local Open Scope go_scope.

Lemma decimal_ge (s : bytes) (acc v : Z) :
  0 <= acc -> decimal s acc = Some v -> acc <= v.
Proof.
  revert acc. induction s as [|c s IH]; intros acc Hacc; cbn [decimal].
  - intros [= <-]. lia.
  - destruct (Z.leb_spec 48 (code c)); [|discriminate].
    destruct (Z.leb_spec (code c) 57); [|discriminate].
    cbn [andb]. intros Hd. apply IH in Hd; lia.
Qed.

(** [strconv.ParseUint] reads a string of decimal digits that stands for a
    number below [2^64] as that number. *)
Lemma ParseUint_loop_decimal (s0 s : bytes) (n v : Z) :
  0 <= n -> decimal s n = Some v -> v < 2 ^ 64 ->
  ParseUint_loop s0 s n = (v, None).
Proof.
  assert (Hcut : (2 ^ 64 - 1) / 10 + 1 = 1844674407370955162)
    by reflexivity.
  assert (Hmax : 2 ^ 64 = 18446744073709551616) by reflexivity.
  revert n. induction s as [|c s IH]; intros n Hn Hd Hv.
  - cbn in Hd. injection Hd as <-. reflexivity.
  - cbn [decimal] in Hd. cbn [ParseUint_loop].
    destruct ((48 <=? code c) && (code c <=? 57)) eqn:Edig;
      [|discriminate Hd].
    apply andb_true_iff in Edig as [H48 H57].
    apply Z.leb_le in H48, H57.
    assert (Hge : 10 * n + (code c - 48) <= v)
      by (apply (decimal_ge s); [lia | exact Hd]).
    rewrite Hcut.
    destruct (Z.geb_spec n 1844674407370955162) as [Hbig | Hsmall]; [lia|].
    cbv zeta.
    destruct (Z.gtb_spec (n * 10 + (code c - 48)) (2 ^ 64 - 1)); [lia|].
    apply IH; [lia | | exact Hv].
    replace (n * 10 + (code c - 48)) with (10 * n + (code c - 48)) by lia.
    exact Hd.
Qed.

Lemma ParseUint_decimal (s : bytes) (v : Z) :
  s <> [] -> decimal s 0 = Some v -> v < 2 ^ 64 -> ParseUint s = (v, None).
Proof.
  intros Hne Hd Hv. destruct s as [|c s]; [contradiction|].
  unfold ParseUint. apply ParseUint_loop_decimal; [lia | exact Hd | exact Hv].
Qed.

(** The slice [line[len(p) : len(line)-2]] of a line [p ++ m ++ crlf]. *)
Lemma slice_line (p m : bytes) :
  slice (p ++ m ++ crlf) (len p) (len (p ++ m ++ crlf) - 2) = Ret m.
Proof.
  unfold slice, len. rewrite !length_app, !Nat2Z.inj_add.
  change (Z.of_nat (length crlf)) with 2.
  rewrite (proj2 (Z.leb_le 0 _)) by lia.
  rewrite (proj2 (Z.leb_le (Z.of_nat (length p)) _)) by lia.
  rewrite (proj2 (Z.leb_le _ _)) by lia.
  cbn [andb].
  replace (Z.to_nat _) with (length m) by lia.
  rewrite Nat2Z.id, skipn_app_exact, firstn_app_exact. reflexivity.
Qed.

Lemma slice_out_of_range (s : bytes) (lo hi : Z) :
  hi < lo -> slice s lo hi = Panic "slice bounds out of range".
Proof.
  intros H. unfold slice.
  destruct (Z.leb_spec lo hi); [lia|].
  now rewrite andb_false_r.
Qed.

(** A line of digits is not the line NOT_FOUND. *)
Lemma digits_not_NotFound (ds : bytes) (v : Z) :
  ds <> [] -> decimal ds 0 = Some v ->
  Equal (ds ++ crlf) resultNotFound = false.
Proof.
  intros Hne Hd. destruct ds as [|c ds]; [contradiction|].
  apply Equal_neq. intros H. injection H as -> _.
  discriminate Hd.
Qed.

Lemma store_all_fields (ds : list dest) (vs : list scanned) (st : Item * Z) :
  Value (fst (store_all ds vs st)) = Value (fst st) /\
  Expiration (fst (store_all ds vs st)) = Expiration (fst st) /\
  (~ In DCasid ds -> Casid (fst (store_all ds vs st)) = Casid (fst st)).
Proof.
  revert vs st. induction ds as [|d ds IH]; intros vs st.
  - cbn. auto.
  - destruct vs as [|v vs]; [cbn; auto|].
    cbn [store_all].
    destruct (IH vs (store d v st)) as (Hv & Hx & Hc).
    rewrite Hv, Hx.
    assert (Hs : Value (fst (store d v st)) = Value (fst st) /\
                 Expiration (fst (store d v st)) = Expiration (fst st) /\
                 (d <> DCasid ->
                  Casid (fst (store d v st)) = Casid (fst st))).
    { destruct st as [it size]. destruct d, v; cbn; auto.
      repeat split. intros H. now contradiction H. }
    destruct Hs as (Hsv & Hsx & Hsc).
    repeat split; [exact Hsv | exact Hsx |].
    intros Hin. rewrite Hc by (intros H; apply Hin; right; exact H).
    apply Hsc. intros ->. apply Hin. left. reflexivity.
Qed.

Section LinesProps.

Variable versionPrefix : bytes.
Variable resultClientErrorPrefix : bytes.

(** X19. [IncrDecr] reads the new value off the response line: when the
    line is a string of decimal digits that stands for a number below
    [2^64], followed by CRLF, that number is returned with no error. *)
Theorem text_IncrDecr_number (verb : Verb) (k : bytes) (delta : Z)
    (rw : ReadWriter) (ds rest : bytes) (v : Z) :
  writable rw ->
  next_line rw (ds ++ crlf) rest ->
  ds <> [] -> decimal ds 0 = Some v -> v < 2 ^ 64 ->
  HasPrefix (ds ++ crlf) resultClientErrorPrefix = false ->
  IncrDecr resultClientErrorPrefix verb k delta rw
  = (Ret (v, None),
     flushed rw (verb ++ [SP] ++ k ++ [SP] ++ fmt_d delta ++ crlf) rest).
Proof.
  intros Hw Hline Hne Hd Hv Hpre. unfold IncrDecr. unfold bind at 1.
  rewrite (writeReadLine_run _ rw _ rest Hw Hline).
  rewrite (digits_not_NotFound ds v Hne Hd), Hpre.
  unfold bind, lift.
  rewrite (slice_line [] ds
           : slice (ds ++ crlf) 0 (len (ds ++ crlf) - 2) = Ret ds).
  rewrite (ParseUint_decimal ds v Hne Hd Hv). reflexivity.
Qed.

(** X20. [IncrDecr] panics on a line too short for its slice expressions:
    a line NOT_FOUND apart, when the line is shorter than two bytes, or
    begins with CLIENT_ERROR and has fewer than two bytes after it, the
    slice that cuts the CRLF off is out of bounds. *)
Theorem text_IncrDecr_short_line (verb : Verb) (k : bytes) (delta : Z)
    (rw : ReadWriter) (line rest : bytes) :
  writable rw ->
  next_line rw line rest ->
  line <> resultNotFound ->
  len line - 2 < (if HasPrefix line resultClientErrorPrefix
                  then len resultClientErrorPrefix else 0) ->
  IncrDecr resultClientErrorPrefix verb k delta rw
  = (Panic "slice bounds out of range",
     flushed rw (verb ++ [SP] ++ k ++ [SP] ++ fmt_d delta ++ crlf) rest).
Proof.
  intros Hw Hline Hnf Hshort. unfold IncrDecr. unfold bind at 1.
  rewrite (writeReadLine_run _ rw _ rest Hw Hline).
  apply Equal_neq in Hnf. rewrite Hnf.
  destruct (HasPrefix line resultClientErrorPrefix);
    unfold bind, lift; rewrite slice_out_of_range by exact Hshort;
    reflexivity.
Qed.

(** X21. The errors of [IncrDecr]: the line NOT_FOUND gives
    [ErrCacheMiss]; a line CLIENT_ERROR gives an error that carries what
    stands between the prefix and the CRLF, and so never the sentinel
    [ErrNonNumeric]; the value returned with them is 0. *)
Theorem text_IncrDecr_errors (verb : Verb) (k : bytes) (delta : Z)
    (rw : ReadWriter) (line rest : bytes) :
  writable rw ->
  next_line rw line rest ->
  (line = resultNotFound ->
   IncrDecr resultClientErrorPrefix verb k delta rw
   = (Ret (0, Some ErrCacheMiss),
      flushed rw (verb ++ [SP] ++ k ++ [SP] ++ fmt_d delta ++ crlf) rest)) /\
  (forall m,
     line = resultClientErrorPrefix ++ m ++ crlf ->
     line <> resultNotFound ->
     IncrDecr resultClientErrorPrefix verb k delta rw
     = (Ret (0, Some (Errorf "memcache: client error: %s" [m])),
        flushed rw (verb ++ [SP] ++ k ++ [SP] ++ fmt_d delta ++ crlf)
                rest)).
Proof.
  intros Hw Hline. split.
  - intros ->. unfold IncrDecr. unfold bind at 1.
    rewrite (writeReadLine_run _ rw _ rest Hw Hline). reflexivity.
  - intros m -> Hnf. unfold IncrDecr. unfold bind at 1.
    rewrite (writeReadLine_run _ rw _ rest Hw Hline).
    apply Equal_neq in Hnf. rewrite Hnf.
    rewrite (proj2 (LibProps.HasPrefix_spec _ _))
      by (exists (m ++ crlf); reflexivity).
    unfold bind, lift. rewrite slice_line. reflexivity.
Qed.

(** X22. [Ping] sends the line [version] and accepts exactly the response
    lines that begin with the version prefix; any other line is a protocol
    error that quotes it. *)
Theorem text_Ping_exchange (rw : ReadWriter) (line rest : bytes) :
  writable rw ->
  next_line rw line rest ->
  ((exists post, line = versionPrefix ++ post) ->
   Ping versionPrefix rw
   = (Ret None, flushed rw (B "version" ++ crlf) rest)) /\
  ((forall post, line <> versionPrefix ++ post) ->
   Ping versionPrefix rw
   = (Ret (Some (Errorf "memcache: unexpected response line from ping: %q"
                   [line])),
      flushed rw (B "version" ++ crlf) rest)).
Proof.
  intros [He Hd] Hline.
  assert (Hrun : Ping versionPrefix rw
    = (Ret (if HasPrefix line versionPrefix then None
            else Some (Errorf
                   "memcache: unexpected response line from ping: %q"
                   [line])),
       flushed rw (B "version" ++ crlf) rest)).
  { unfold Ping, Fprintf. unfold bind at 1.
    rewrite Write_writable by exact He.
    unfold bind at 1.
    rewrite Flush_writable by (split; [reflexivity | exact Hd]).
    cbv beta iota delta [rd rsize wbuf sent]. unfold bind.
    rewrite (ReadSlice_frame LF rw) by reflexivity.
    unfold next_line in Hline. rewrite Hline.
    cbn [fst snd rd set_rd rsize wbuf sent werr wdown].
    destruct (HasPrefix line versionPrefix); reflexivity. }
  split.
  - intros Hp. apply LibProps.HasPrefix_spec in Hp.
    rewrite Hrun, Hp. reflexivity.
  - intros Hnp. rewrite Hrun.
    destruct (HasPrefix line versionPrefix) eqn:E; [|reflexivity].
    apply LibProps.HasPrefix_spec in E as [post E].
    exfalso. exact (Hnp post E).
Qed.

End LinesProps.

Lemma text_IncrDecr_number_witness :
  IncrDecr (B "CLIENT_ERROR ") Incr (B "num") 8
    (rw_fresh (B "58" ++ crlf))
  = (Ret (58, None),
     flushed (rw_fresh (B "58" ++ crlf)) (B "incr num 8" ++ crlf) []).
Proof.
  apply (text_IncrDecr_number (B "CLIENT_ERROR ") Incr (B "num") 8
           (rw_fresh (B "58" ++ crlf)) (B "58") [] 58).
  - split; reflexivity.
  - reflexivity.
  - discriminate.
  - reflexivity.
  - reflexivity.
  - reflexivity.
Defined.

Lemma text_IncrDecr_short_line_witness :
  IncrDecr (B "CLIENT_ERROR ") Incr (B "num") 8 (rw_fresh [LF])
  = (Panic "slice bounds out of range",
     flushed (rw_fresh [LF]) (B "incr num 8" ++ crlf) []).
Proof.
  apply (text_IncrDecr_short_line (B "CLIENT_ERROR ") Incr (B "num") 8
           (rw_fresh [LF]) [LF] []).
  - split; reflexivity.
  - reflexivity.
  - discriminate.
  - reflexivity.
Defined.

Lemma text_IncrDecr_errors_witness :
  IncrDecr (B "CLIENT_ERROR ") Incr (B "foo") 1
    (rw_fresh (B "CLIENT_ERROR cannot increment or decrement non-numeric value"
               ++ crlf))
  = (Ret (0, Some (Errorf "memcache: client error: %s"
                     [B "cannot increment or decrement non-numeric value"])),
     flushed
       (rw_fresh
          (B "CLIENT_ERROR cannot increment or decrement non-numeric value"
           ++ crlf))
       (B "incr foo 1" ++ crlf) []).
Proof.
  apply (proj2 (text_IncrDecr_errors (B "CLIENT_ERROR ") Incr (B "foo") 1
           (rw_fresh
              (B "CLIENT_ERROR cannot increment or decrement non-numeric value"
               ++ crlf))
           (B "CLIENT_ERROR cannot increment or decrement non-numeric value"
            ++ crlf) []
           (conj eq_refl eq_refl) eq_refl)).
  - reflexivity.
  - discriminate.
Defined.

Lemma text_Ping_exchange_witness :
  Ping (B "VERSION") (rw_fresh (B "VERSION 1.6.9" ++ crlf))
  = (Ret None,
     flushed (rw_fresh (B "VERSION 1.6.9" ++ crlf)) (B "version" ++ crlf)
             []).
Proof.
  apply (proj1 (text_Ping_exchange (B "VERSION")
           (rw_fresh (B "VERSION 1.6.9" ++ crlf))
           (B "VERSION 1.6.9" ++ crlf) []
           (conj eq_refl eq_refl) eq_refl)).
  exists (B " 1.6.9" ++ crlf). reflexivity.
Defined.

(** ** Flushing the cache *)

(** X23. [DeleteAll] and [FlushAll] send the same line [flush_all]; both
    take the answer OK, but only [DeleteAll] takes the answer DELETED:
    [FlushAll] returns it as an unexpected response line. *)
Theorem text_flush_all (rw : ReadWriter) (line rest : bytes) :
  writable rw ->
  next_line rw line rest ->
  (line = resultOK ->
   DeleteAll rw = (Ret None, flushed rw (B "flush_all" ++ crlf) rest) /\
   FlushAll rw = (Ret None, flushed rw (B "flush_all" ++ crlf) rest)) /\
  (line = resultDeleted ->
   DeleteAll rw = (Ret None, flushed rw (B "flush_all" ++ crlf) rest) /\
   FlushAll rw
   = (Ret (Some (Errorf "memcache: unexpected response line: %q" [line])),
      flushed rw (B "flush_all" ++ crlf) rest)).
Proof.
  intros Hw Hline. unfold DeleteAll, FlushAll.
  rewrite !(writeExpectf_run _ _ rw line rest Hw Hline).
  split; intros ->; split; reflexivity.
Qed.

Lemma text_flush_all_witness :
  DeleteAll (rw_fresh resultDeleted)
  = (Ret None, flushed (rw_fresh resultDeleted) (B "flush_all" ++ crlf) [])
  /\
  FlushAll (rw_fresh resultDeleted)
  = (Ret (Some (Errorf "memcache: unexpected response line: %q"
                  [resultDeleted])),
     flushed (rw_fresh resultDeleted) (B "flush_all" ++ crlf) []).
Proof.
  apply (proj2 (text_flush_all (rw_fresh resultDeleted) resultDeleted []
                  (conj eq_refl eq_refl) eq_refl)).
  reflexivity.
Defined.

(** ** A writer that fails *)

(** X28. A request line that cannot be written is not followed by a read:
    when the writer holds an error or the connection refuses writes,
    [writeReadLine] returns the transport error with no line, nothing
    reaches the peer and nothing of the stream is consumed. *)
Theorem text_writeReadLine_broken_writer (formatted : bytes)
    (rw : ReadWriter) :
  formatted <> [] ->
  werr rw = true \/ wdown rw = true ->
  exists rw',
    writeReadLine formatted rw = (Ret ([], Some ErrTransport), rw') /\
    rd rw' = rd rw /\ sent rw' = sent rw.
Proof.
  intros Hne Hbroken. unfold writeReadLine, Fprintf.
  unfold bind at 1. unfold Write.
  destruct (werr rw) eqn:He.
  - exists rw. repeat split.
  - destruct Hbroken as [Hb | Hd]; [discriminate Hb|].
    unfold bind, Flush. cbn [werr wbuf wdown rd rsize sent].
    rewrite Hd.
    destruct (wbuf rw ++ formatted) eqn:E.
    + apply app_eq_nil in E as [_ E]. contradiction.
    + eexists. repeat split.
Qed.

Lemma text_writeReadLine_broken_writer_witness :
  exists rw',
    writeReadLine (B "delete foo" ++ crlf)
      (mkRW resultDeleted 4096 [] [] false true)
    = (Ret ([], Some ErrTransport), rw') /\
    rd rw' = rd (mkRW resultDeleted 4096 [] [] false true) /\
    sent rw' = sent (mkRW resultDeleted 4096 [] [] false true).
Proof.
  apply (text_writeReadLine_broken_writer (B "delete foo" ++ crlf)
           (mkRW resultDeleted 4096 [] [] false true)).
  - discriminate.
  - right. reflexivity.
Defined.

(** ** Retrieval *)

Section RetrievalExtra.

Variable Sscanf : bytes -> bytes -> nat -> list scanned * option error.

Lemma scanGetResponseLine_Expiration (line : bytes) (it it' : Item)
    (size : Z) (err : option error) :
  scanGetResponseLine Sscanf line it = (it', size, err) ->
  Expiration it' = Expiration it.
Proof.
  unfold scanGetResponseLine. cbv zeta.
  destruct (Count line SP =? 3);
    destruct (Sscanf line _ _) as [vals e];
    match goal with
    | |- context [store_all ?ds vals (it, 0)] =>
        pose proof (store_all_fields ds vals (it, 0)) as (_ & Hx & _);
        destruct (store_all ds vals (it, 0)) as [it1 size1]
    end;
    cbn [fst] in Hx;
    (destruct e; [intros [= <- _ _]; exact Hx|]);
    (destruct (negb _); intros [= <- _ _]; exact Hx).
Qed.

(** X27. What [scanGetResponseLine] does to the item: it leaves the value
    and the expiration alone; on a line with exactly three spaces, the
    form without CAS token, it leaves the CAS alone too; and whenever it
    reports an error, the size is -1 and the error quotes the line. *)
Theorem text_scanGetResponseLine_fields (line : bytes) (it : Item) :
  let r := scanGetResponseLine Sscanf line it in
  Value (fst (fst r)) = Value it /\
  Expiration (fst (fst r)) = Expiration it /\
  (Count line SP = 3 -> Casid (fst (fst r)) = Casid it) /\
  (snd r <> None ->
   snd (fst r) = -1 /\
   snd r = Some (Errorf "memcache: unexpected line in get response: %q"
                   [line])).
Proof.
  unfold scanGetResponseLine. cbv zeta.
  destruct (Z.eqb_spec (Count line SP) 3) as [H3 | H3];
    destruct (Sscanf line _ _) as [vals e];
    match goal with
    | |- context [store_all ?ds vals (it, 0)] =>
        pose proof (store_all_fields ds vals (it, 0)) as (Hv & Hx & Hc);
        destruct (store_all ds vals (it, 0)) as [it1 size1]
    end;
    cbn [fst] in Hv, Hx, Hc.
  - assert (Hcas : Casid it1 = Casid it).
    { apply Hc. cbn. intros Hin.
      repeat (destruct Hin as [Hin | Hin]; [discriminate Hin|]).
      exact Hin. }
    destruct e; [|destruct (negb _)]; cbn [fst snd];
      (split; [exact Hv|]; split; [exact Hx|];
       split; [intros _; exact Hcas|]);
      intros Hn; try (split; reflexivity); now contradiction Hn.
  - destruct e; [|destruct (negb _)]; cbn [fst snd];
      (split; [exact Hv|]; split; [exact Hx|];
       split; [intros H; contradiction|]);
      intros Hn; try (split; reflexivity); now contradiction Hn.
Qed.

Lemma parseGetResponse_loop_result (f : nat) (got : list Item)
    (rw : ReadWriter) :
  (length (rd rw) < f)%nat ->
  (exists r rw',
     parseGetResponse_loop Sscanf f got rw = (Ret r, rw') /\
     exists more,
       fst r = got ++ more /\ Forall (fun it => Expiration it = 0) more) \/
  (exists rw',
     parseGetResponse_loop Sscanf f got rw
     = (Panic "makeslice: len out of range", rw')).
Proof.
  revert got rw. induction f as [|f IH]; intros got rw Hf; [lia|].
  assert (Hstop : forall (e : option error) (rw1 : ReadWriter),
    exists r rw',
      (Ret (got, e), rw1) = (Ret r, rw') /\
      exists more,
        fst r = got ++ more /\ Forall (fun it => Expiration it = 0) more).
  { intros e rw1. exists (got, e), rw1. split; [reflexivity|].
    exists []. rewrite app_nil_r. split; [reflexivity | constructor]. }
  rewrite parseGetResponse_loop_unfold. unfold bind.
  destruct (ReadSlice_Ret LF rw) as (x & rw1 & ERS). rewrite ERS.
  destruct x as [line [e|]]; [left; apply Hstop|].
  destruct (Equal line resultEnd); [left; apply Hstop|].
  destruct (scanGetResponseLine Sscanf line newItem)
    as [[it size] [e|]] eqn:Escan; [left; apply Hstop|].
  cbv zeta.
  destruct ((int64 (size + 2) <? 0) || (int64 (size + 2) >? maxAlloc)).
  { right. exists rw1. reflexivity. }
  destruct (ReadFull_Ret (Z.to_nat (int64 (size + 2))) rw1)
    as (y & rw2 & ERF). rewrite ERF.
  destruct y as [value [e|]]; [left; apply Hstop|].
  destruct (negb _); [left; apply Hstop|].
  apply ReadSlice_line_nonempty in ERS as (c & r & Hrd & Hlen).
  apply ReadFull_ok in ERF as (_ & _ & ->).
  destruct (IH (got ++ [with_Value it (firstn (Z.to_nat size) value)])
              (set_rd rw1 (skipn (Z.to_nat (int64 (size + 2))) (rd rw1))))
    as [(r0 & rw' & Hrun & more & Hfst & Hall) | (rw' & Hrun)].
  - simpl. rewrite length_skipn. rewrite Hrd in Hf. simpl in Hf. lia.
  - left. exists r0, rw'. split; [exact Hrun|].
    exists (with_Value it (firstn (Z.to_nat size) value) :: more).
    split; [rewrite Hfst, <- app_assoc; reflexivity|].
    constructor; [|exact Hall].
    apply scanGetResponseLine_Expiration in Escan.
    cbn [with_Value Expiration]. exact Escan.
  - right. exists rw'. exact Hrun.
Qed.

(** X25. [parseGetResponse] ends on every stream: it returns, or it panics
    on making a slice of negative length, and nothing else.  When it
    returns, the callback has been handed what it had before followed by the
    items read, each without expiration. *)
Theorem text_parseGetResponse_result (got : list Item) (rw : ReadWriter) :
  (exists r rw',
     parseGetResponse Sscanf got rw = (Ret r, rw') /\
     exists more,
       fst r = got ++ more /\ Forall (fun it => Expiration it = 0) more) \/
  (exists rw',
     parseGetResponse Sscanf got rw
     = (Panic "makeslice: len out of range", rw')).
Proof.
  unfold parseGetResponse. apply parseGetResponse_loop_result. lia.
Qed.

(** X26. A VALUE line that declares a size below -2 makes
    [parseGetResponse] panic: the length of the slice made for the payload,
    [size + 2], is negative. *)
Theorem text_parseGetResponse_negative_size (got : list Item)
    (rw : ReadWriter) (line after : bytes) (it : Item) (size : Z) :
  next_line rw line after ->
  line <> resultEnd ->
  scanGetResponseLine Sscanf line newItem = (it, size, None) ->
  - 2 ^ 63 <= size + 2 < 0 ->
  parseGetResponse Sscanf got rw
  = (Panic "makeslice: len out of range", set_rd rw after).
Proof.
  intros Hline Hend Hscan Hsize.
  unfold parseGetResponse. rewrite parseGetResponse_loop_unfold.
  unfold bind at 1. unfold next_line in Hline. rewrite Hline.
  apply Equal_neq in Hend. rewrite Hend, Hscan. cbv zeta.
  rewrite int64_small by lia.
  destruct (Z.ltb_spec (size + 2) 0); [reflexivity | lia].
Qed.

(** X24. [Get] sends one line, [gets] and the keys separated by spaces,
    and hands the stream to [parseGetResponse]; when the server answers END
    at once, no item is delivered and no error returned: keys that are not
    there are not an error of the text driver. *)
Theorem text_Get_exchange (keys : list bytes) (got : list Item)
    (rw : ReadWriter) :
  writable rw ->
  Get Sscanf keys got rw
  = parseGetResponse Sscanf got
      (flushed rw (B "gets " ++ Join keys [SP] ++ crlf) (rd rw)) /\
  (forall rest,
     next_line rw resultEnd rest ->
     Get Sscanf keys got rw
     = (Ret (got, None),
        flushed rw (B "gets " ++ Join keys [SP] ++ crlf) rest)).
Proof.
  intros [He Hd].
  assert (Hrun : Get Sscanf keys got rw
    = parseGetResponse Sscanf got
        (flushed rw (B "gets " ++ Join keys [SP] ++ crlf) (rd rw))).
  { unfold Get, Fprintf. unfold bind at 1.
    rewrite Write_writable by exact He.
    unfold bind at 1.
    rewrite Flush_writable by (split; [reflexivity | exact Hd]).
    reflexivity. }
  split; [exact Hrun|].
  intros rest Hline. rewrite Hrun.
  unfold parseGetResponse. rewrite parseGetResponse_loop_unfold.
  unfold bind. rewrite (next_line_flushed rw _ rest _ Hline).
  rewrite Equal_refl. reflexivity.
Qed.

End RetrievalExtra.

Lemma text_parseGetResponse_negative_size_witness :
  parseGetResponse
    (fun str _ _ =>
       if Equal str (B "VALUE foo 0 -5" ++ crlf)
       then ([SStr (B "foo"); SInt 0; SInt (-5)], None)
       else ([], Some (Errorf "input does not match format" [])))
    [] (rw_fresh (B "VALUE foo 0 -5" ++ crlf ++ B "END" ++ crlf))
  = (Panic "makeslice: len out of range",
     set_rd (rw_fresh (B "VALUE foo 0 -5" ++ crlf ++ B "END" ++ crlf))
            (B "END" ++ crlf)).
Proof.
  apply (text_parseGetResponse_negative_size _ []
           (rw_fresh (B "VALUE foo 0 -5" ++ crlf ++ B "END" ++ crlf))
           (B "VALUE foo 0 -5" ++ crlf) (B "END" ++ crlf)
           (mkItem (B "foo") [] 0 0 0) (-5)).
  - reflexivity.
  - discriminate.
  - reflexivity.
  - split; [vm_compute; discriminate | reflexivity].
Defined.

Lemma text_Get_exchange_witness :
  Get Sscanf_fields [B "foo"; B "bar"] [] (rw_fresh resultEnd)
  = (Ret ([], None),
     flushed (rw_fresh resultEnd) (B "gets foo bar" ++ crlf) []).
Proof.
  apply (proj2 (text_Get_exchange Sscanf_fields [B "foo"; B "bar"] []
                  (rw_fresh resultEnd) (conj eq_refl eq_refl))).
  reflexivity.
Defined.

End TextExtra.
